(** * mapbuffer: the submap cache and its quad files

    A shallow embedding of [src/mapbuffer.cpp]: the map from absolute submap
    coordinates to owned submaps, the per-quad save ([save], [save_quad]) and
    the lazy load ([lookup_submap], [unserialize_submaps], [deserialize]).

    Conventions of the embedding:
    - [std::map<tripoint_abs_sm, std::unique_ptr<submap>>] is a
      [gmap tripoint (option submap)]; [None] as a value is the null
      [unique_ptr], an absent key is an absent key.  A [unique_ptr] owns its
      object exclusively, so the object is carried by value.
    - The file system is a finite map from path strings to parsed file
      contents together with a set of directories.
    - [debugmsg] appends a structured entry to a log.
    - C++ exceptions are the [Throw] outcome of the monad [M]. *)

From stdpp Require Import base gmap sets list strings pretty sorting.
From Stdlib Require Import ZArith Lia Ascii.

Local Open Scope Z_scope.

(** ** Coordinates *)

Record point := mk_point { px : Z; py : Z }.

Record tripoint := mk_tripoint { tx : Z; ty : Z; tz : Z }.

#[global] Instance tripoint_eq_dec : EqDecision tripoint.
Proof. solve_decision. Defined.

#[global] Instance tripoint_countable : Countable tripoint.
Proof.
  refine (inj_countable' (λ p, (tx p, ty p, tz p))
                         (λ t, mk_tripoint t.1.1 t.1.2 t.2) _).
  by intros [].
Defined.

(** [point_zero], [point_south], [point_east], [point_south_east] of
    [point.h]. *)
Definition point_zero : point := mk_point 0 0.
Definition point_south : point := mk_point 0 1.
Definition point_east : point := mk_point 1 0.
Definition point_south_east : point := mk_point 1 1.

(** [tripoint + point]: the offset is applied in the plane. *)
Definition tripoint_add (p : tripoint) (d : point) : tripoint :=
  mk_tripoint (tx p + px d) (ty p + py d) (tz p).

(** A default-constructed [tripoint_abs_sm]. *)
Definition tripoint_default : tripoint := mk_tripoint 0 0 0.

(** Modelled from the spec: [project_to] of [coordinates.h], which is not
    under src/.  A quad (overmap terrain tile) is 2x2 submaps, a segment is
    32x32 quads; scaling down rounds towards minus infinity, the level [z]
    is unchanged. *)
Definition project_to_omt (sm : tripoint) : tripoint :=
  mk_tripoint (tx sm `div` 2) (ty sm `div` 2) (tz sm).

Definition project_to_sm (om : tripoint) : tripoint :=
  mk_tripoint (2 * tx om) (2 * ty om) (tz om).

Definition project_to_seg (om : tripoint) : tripoint :=
  mk_tripoint (tx om `div` 32) (ty om `div` 32) (tz om).

(** The order of [std::map<tripoint_abs_sm, _>]: lexicographic on x, y, z. *)
Definition tripoint_le (a b : tripoint) : Prop :=
  tx a < tx b ∨ (tx a = tx b ∧ (ty a < ty b ∨ (ty a = ty b ∧ tz a ≤ tz b))).

#[global] Instance tripoint_le_dec : RelDecision tripoint_le.
Proof. intros a b. unfold tripoint_le. apply _. Defined.

(** ** Paths *)

Definition cata_path := string.

(** [dirname / name] on [cata_path]. *)
Definition path_join (dir : cata_path) (name : string) : cata_path :=
  dir +:+ "/" +:+ name.

(** No character of the string is [c]. *)
Fixpoint free_of (c : ascii) (s : string) : Prop :=
  match s with
  | EmptyString => True
  | String a s => a ≠ c ∧ free_of c s
  end.

(** [string_format( "%d.%d.%d", x, y, z )]. *)
Definition format_ddd (p : tripoint) : string :=
  pretty (tx p) +:+ "." +:+ pretty (ty p) +:+ "." +:+ pretty (tz p).

Definition find_quad_path (dirname : cata_path) (om_addr : tripoint) : cata_path :=
  path_join dirname (format_ddd om_addr +:+ ".map").

Definition find_dirname (world_base : cata_path) (om_addr : tripoint) : cata_path :=
  let segment_addr := project_to_seg om_addr in
  path_join (path_join world_base "maps") (format_ddd segment_addr).

(** ** JSON values, as the streaming reader and writer see them *)

#[warnings="-register-all"]
Inductive JsonValue :=
  | JNull
  | JBool (b : bool)
  | JInt (n : Z)
  | JString (s : string)
  | JArray (items : list JsonValue)
  | JObject (members : list (string * JsonValue)).

(** A JSON object is its member list in file order: the iteration order of
    [for( JsonMember m : obj )]. *)
Abbreviation JsonMembers := (list (string * JsonValue)).

Fixpoint json_member (name : string) (obj : JsonMembers) : option JsonValue :=
  match obj with
  | [] => None
  | (n, v) :: rest => if decide (n = name) then Some v else json_member name rest
  end.

(** ** Exceptions *)

Inductive outcome (A : Type) :=
  | Ret (a : A)
  | Throw (what : string).
Arguments Ret {A} a.
Arguments Throw {A} what.

#[global] Instance outcome_ret : MRet outcome := @Ret.
#[global] Instance outcome_bind : MBind outcome := λ A B f m,
  match m with
  | Ret a => f a
  | Throw e => Throw e
  end.

(** State and exceptions: a computation over a state [S] that returns or
    throws, and leaves a state behind in both cases. *)
Definition exn_state (S A : Type) : Type := S → outcome A * S.

#[global] Instance exn_state_ret {S} : MRet (exn_state S) := λ A a s, (Ret a, s).
#[global] Instance exn_state_bind {S} : MBind (exn_state S) := λ A B f m s,
  match m s with
  | (Ret a, s') => f a s'
  | (Throw e, s') => (Throw e, s')
  end.

Definition throw {S A} (what : string) : exn_state S A := λ s, (Throw what, s).
Definition lift_outcome {S A} (o : outcome A) : exn_state S A := λ s, (o, s).
Definition gets {S A} (f : S → A) : exn_state S A := λ s, (Ret (f s), s).
Definition modify {S} (f : S → S) : exn_state S unit := λ s, (Ret tt, f s).

(** [try { body } catch( const std::exception &err ) { handler }]. *)
Definition try_catch {S A} (body : exn_state S A) (handler : string → exn_state S A)
  : exn_state S A := λ s,
  match body s with
  | (Ret a, s') => (Ret a, s')
  | (Throw e, s') => handler e s'
  end.

(** [JsonObject::has_int] and [JsonObject::get_int]. *)
Definition json_has_int (obj : JsonMembers) (name : string) : bool :=
  match json_member name obj with
  | Some (JInt _) => true
  | _ => false
  end.

Definition json_get_int (obj : JsonMembers) (name : string) : outcome Z :=
  match json_member name obj with
  | Some (JInt n) => Ret n
  | _ => Throw "not an int"
  end.

(** [JsonArray::next_int]: the next element, which must be an integer. *)
Definition next_int (items : list JsonValue) : outcome (Z * list JsonValue) :=
  match items with
  | JInt n :: rest => Ret (n, rest)
  | _ :: _ => Throw "not an int"
  | [] => Throw "tried to read past the end of the array"
  end.

(** ** The submap interface

    [submap] itself lives in [submap.h]; the map buffer only constructs it,
    asks whether it is uniform or reverted, and hands it a JSON writer
    ([store]) or one JSON member and the record's version ([load]). *)

Class SubmapOps (submap : Type) := {
  submap_new : submap;
  is_uniform : submap → bool;
  reverted : submap → bool;
  store : submap → JsonMembers;
  load : submap → JsonValue → string → Z → outcome submap;
}.

(** ** The world the map buffer runs in *)

Inductive file_data :=
  | FileJson (v : JsonValue)
  | FileGarbage.

Inductive debug_msg :=
  (** "Tried to remove non-existing submap %s" *)
  | MsgRemoveNonExisting (addr : tripoint)
  (** "Failed to load submap %s: %s" *)
  | MsgFailedToLoad (p : tripoint) (what : string)
  (** "file %s did not contain the expected submap %s for non-uniform terrain %s" *)
  | MsgMissingSubmap (quad_path : cata_path) (p : tripoint) (oid : string)
  (** "submap %s was already loaded" *)
  | MsgAlreadyLoaded (p : tripoint)
  (** the report of a file that could not be read *)
  | MsgFailedToRead (path : cata_path) (what : string).

Record world (submap : Type) := mk_world {
  submaps : gmap tripoint (option submap);
  files : gmap cata_path file_data;
  dirs : gset cata_path;
  debug_log : list debug_msg;
}.
Arguments mk_world {submap} _ _ _ _.
Arguments submaps {submap} _.
Arguments files {submap} _.
Arguments dirs {submap} _.
Arguments debug_log {submap} _.

Definition set_submaps {submap} (m : gmap tripoint (option submap)) (w : world submap)
  : world submap :=
  mk_world m (files w) (dirs w) (debug_log w).

Definition set_files {submap} (f : gmap cata_path file_data) (w : world submap)
  : world submap :=
  mk_world (submaps w) f (dirs w) (debug_log w).

(** [debugmsg( ... )]: reported, never fatal. *)
Definition debugmsg {submap} (msg : debug_msg) (w : world submap) : world submap :=
  mk_world (submaps w) (files w) (dirs w) (debug_log w ++ [msg]).

(** [assure_dir_exist( path )]. *)
Definition assure_dir_exist {submap} (path : cata_path) (w : world submap) : world submap :=
  mk_world (submaps w) (files w) ({[path]} ∪ dirs w) (debug_log w).

(** [fs::exists] and [file_exist]. *)
Definition file_exist {submap} (path : cata_path) (w : world submap) : bool :=
  bool_decide (is_Some (files w !! path)).

(** [fs::remove( path )]. *)
Definition fs_remove {submap} (path : cata_path) (w : world submap) : world submap :=
  set_files (delete path (files w)) w.

(** What one call of [write_to_file] that returns ends in.  The helper is
    declared in [cata_utility.h], not under src/; it is taken as a parameter
    of the environment.  It opens the target, runs the writer callback on
    the stream and commits; when that fails the target is as it was, and
    the writer has or has not run by then.  How the failure is reported
    cannot be read off [mapbuffer.cpp]: the call in [save_quad] is a
    statement, so that a result is dropped, and no caller has a handler, so
    that an exception travels.  [write_outcome] says how the write ends;
    whether a failure raises is a second parameter, of [save_quad_raising]
    and [save_raising] below. *)
Inductive write_outcome :=
  | Committed
  | FailedBeforeWriter
  | FailedAfterWriter.

#[global] Instance write_outcome_eq_dec : EqDecision write_outcome.
Proof. solve_decision. Defined.

Record environment (submap : Type) := mk_environment {
  (** [PATH_INFO::world_base_save_path()] *)
  world_base_save_path : cata_path;
  (** [extern const int savegame_version] *)
  savegame_version : Z;
  (** [get_map().inbounds( om_addr )]: the reality bubble *)
  inbounds : tripoint → bool;
  (** how the write of each path ends *)
  write_io : cata_path → write_outcome;
  (** [std::ostringstream << int] under the stream's locale *)
  locale_put : Z → string;
  (** [overmap_buffer.ter( om_addr )], as the terrain id string *)
  overmap_ter : tripoint → string;
  (** [generate_uniform_omt( p, oid )] of [mapgen.cpp], acting on the buffer *)
  generate_uniform_omt :
    tripoint → string → gmap tripoint (option submap) → gmap tripoint (option submap);
}.
Arguments mk_environment {submap} _ _ _ _ _ _ _.
Arguments world_base_save_path {submap} _.
Arguments savegame_version {submap} _.
Arguments inbounds {submap} _ _.
Arguments write_io {submap} _ _.
Arguments locale_put {submap} _ _.
Arguments overmap_ter {submap} _ _.
Arguments generate_uniform_omt {submap} _ _ _ _.

(** * The map buffer *)

Section mapbuffer.
Context {submap : Type} `{!SubmapOps submap}.
Variable env : environment submap.

Local Abbreviation cache := (gmap tripoint (option submap)).
Local Abbreviation M := (exn_state (world submap)).

(** ** Insertion and removal *)

(** [bool add_submap( const tripoint_abs_sm &p, std::unique_ptr<submap> &sm )].
    Returns the result, the caller's [sm] after the call (moved-from is
    null) and the buffer. *)
Definition add_submap (p : tripoint) (sm : option submap) (m : cache)
  : bool * option submap * cache :=
  if bool_decide (is_Some (m !! p)) then (false, sm, m)
  else (true, None, <[p := sm]> m).

(** What the destructor of a [std::unique_ptr] deletes. *)
Definition unique_ptr_dtor (ptr : option submap) : option submap := ptr.

(** [bool add_submap( const tripoint_abs_sm &p, submap *sm )].  Returns the
    result, the object deleted when [temp] goes out of scope (if any) and
    the buffer. *)
Definition add_submap_raw (p : tripoint) (sm : option submap) (m : cache)
  : bool * option submap * cache :=
  let temp := sm in
  let '(result, temp, m) := add_submap p temp m in
  let temp := if negb result then None (* temp.release() *) else temp in
  (result, unique_ptr_dtor temp, m).

Definition remove_submap (addr : tripoint) (w : world submap) : world submap :=
  match submaps w !! addr with
  | None => debugmsg (MsgRemoveNonExisting addr) w
  | Some _ => set_submaps (delete addr (submaps w)) w
  end.

Definition clear (w : world submap) : world submap := set_submaps ∅ w.

(** ** Saving one quad *)

Definition offsets : list point :=
  [point_zero; point_south; point_east; point_south_east].

Definition submap_addrs (om_addr : tripoint) : list tripoint :=
  (λ offset, tripoint_add (project_to_sm om_addr) offset) <$> offsets.

(** [submaps[addr]]: [std::map::operator[]] default-constructs the entry of
    an absent key, here a null [unique_ptr]. *)
Definition submaps_index (addr : tripoint) (m : cache) : option submap * cache :=
  match m !! addr with
  | Some entry => (entry, m)
  | None => (None, <[addr := None]> m)
  end.

(** The flags of [save_quad] after its first loop, and the buffer after
    the loop's indexing. *)
Definition inspect_submap (file_exists : bool)
    (acc : bool * bool * cache) (submap_addr : tripoint) : bool * bool * cache :=
  let '(all_uniform, reverted_to_uniform, m) := acc in
  let '(sm, m) := submaps_index submap_addr m in
  match sm with
  | Some s =>
      if negb (is_uniform s) then (false, reverted_to_uniform, m)
      else if reverted s then (all_uniform, file_exists, m)
      else (all_uniform, reverted_to_uniform, m)
  | None => (all_uniform, reverted_to_uniform, m)
  end.

Definition inspect_quad (file_exists : bool) (addrs : list tripoint) (m : cache)
  : bool * bool * cache :=
  foldl (inspect_submap file_exists) (true, false, m) addrs.

(** The loop under [if( delete_after_save )] of the all-uniform branch. *)
Definition queue_resident (m : cache) (addrs : list tripoint)
    (submaps_to_delete : list tripoint) : list tripoint :=
  foldl (λ acc submap_addr,
           match m !! submap_addr with
           | Some (Some _) => acc ++ [submap_addr]
           | _ => acc
           end) submaps_to_delete addrs.

(** One record of the quad file. *)
Definition submap_record (submap_addr : tripoint) (sm : submap) : JsonValue :=
  JObject (("version", JInt (savegame_version env))
           :: ("coordinates",
               JArray [JInt (tx submap_addr); JInt (ty submap_addr); JInt (tz submap_addr)])
           :: store sm).

(** The writer callback handed to [write_to_file]: the records it emits
    and the eviction list it leaves. *)
Definition quad_writer (m : cache) (addrs : list tripoint) (delete_after_save : bool)
    (submaps_to_delete : list tripoint) : list JsonValue * list tripoint :=
  foldl (λ acc submap_addr,
           let '(records, to_delete) := acc in
           match m !! submap_addr with
           | None => acc
           | Some None => acc
           | Some (Some sm) =>
               (records ++ [submap_record submap_addr sm],
                if delete_after_save then to_delete ++ [submap_addr] else to_delete)
           end) ([], submaps_to_delete) addrs.

(** [write_to_file( filename, writer )]; its [bool] result comes third. *)
Definition write_to_file (filename : cata_path)
    (writer : list tripoint → list JsonValue * list tripoint)
    (submaps_to_delete : list tripoint) (w : world submap)
  : world submap * list tripoint * bool :=
  match write_io env filename with
  | Committed =>
      let '(records, to_delete) := writer submaps_to_delete in
      (set_files (<[filename := FileJson (JArray records)]> (files w)) w, to_delete, true)
  | FailedBeforeWriter => (w, submaps_to_delete, false)
  | FailedAfterWriter =>
      let '(_, to_delete) := writer submaps_to_delete in
      (w, to_delete, false)
  end.

Definition save_quad (dirname filename : cata_path) (om_addr : tripoint)
    (submaps_to_delete : list tripoint) (delete_after_save : bool)
    (w : world submap) : world submap * list tripoint :=
  let addrs := submap_addrs om_addr in
  let file_exists := file_exist filename w in
  let '(all_uniform, reverted_to_uniform, m) :=
    inspect_quad file_exists addrs (submaps w) in
  let w := set_submaps m w in
  let submaps_to_delete :=
    if all_uniform && delete_after_save
    then queue_resident (submaps w) addrs submaps_to_delete
    else submaps_to_delete in
  if all_uniform && negb reverted_to_uniform then (w, submaps_to_delete)
  else
    let w := assure_dir_exist dirname w in
    let '(w, submaps_to_delete, _) :=
      write_to_file filename
        (quad_writer (submaps w) addrs delete_after_save) submaps_to_delete w in
    let w := if all_uniform && reverted_to_uniform then fs_remove filename w else w in
    (w, submaps_to_delete).

(** ** Saving the whole buffer *)

(** The keys of [submaps] in the iteration order of [std::map]. *)
Definition cache_keys (m : cache) : list tripoint :=
  merge_sort tripoint_le (map_to_list m).*1.

(** What the task launched for one quad captures. *)
Record save_task := mk_save_task {
  task_dirname : cata_path;
  task_quad_path : cata_path;
  task_om_addr : tripoint;
  task_delete_after_save : bool;
  task_inside_reality_bubble : bool;
}.

(** The first loop of [save]: one task per quad, in first-seen order. *)
Definition launch_task (delete_after_save : bool)
    (acc : gset tripoint * list save_task) (elem : tripoint)
  : gset tripoint * list save_task :=
  let '(saved_submaps, futures) := acc in
  let om_addr := project_to_omt elem in
  if bool_decide (om_addr ∈ saved_submaps) then acc
  else
    let saved_submaps := {[om_addr]} ∪ saved_submaps in
    let dirname := find_dirname (world_base_save_path env) om_addr in
    let quad_path := find_quad_path dirname om_addr in
    let inside_reality_bubble := inbounds env om_addr in
    (saved_submaps,
     futures ++ [mk_save_task dirname quad_path om_addr
                              delete_after_save inside_reality_bubble]).

Definition save_tasks (delete_after_save : bool) (m : cache) : list save_task :=
  (foldl (launch_task delete_after_save) (∅, []) (cache_keys m)).2.

(** The body of one task: [save_quad] on a local list, spliced onto the
    shared one. *)
Definition run_task (acc : world submap * list tripoint) (t : save_task)
  : world submap * list tripoint :=
  let '(w, submaps_to_delete) := acc in
  let '(w, local_submaps_to_delete) :=
    save_quad (task_dirname t) (task_quad_path t) (task_om_addr t) []
              (task_delete_after_save t || negb (task_inside_reality_bubble t)) w in
  (w, submaps_to_delete ++ local_submaps_to_delete).

(** [mapbuffer::save].  The tasks are run one after the other in launch
    order; the progress popup is left out. *)
Definition save (delete_after_save : bool) (w : world submap) : world submap :=
  let w := assure_dir_exist (world_base_save_path env +:+ "/maps") w in
  let futures := save_tasks delete_after_save (submaps w) in
  let '(w, submaps_to_delete) := foldl run_task (w, []) futures in
  foldl (λ w elem, remove_submap elem w) w submaps_to_delete.

(** ** A write that raises

    [save_quad], [run_task] and [save] above are the runs in which every
    call of [write_to_file] returns.  Below is the same code for the runs
    in which a failing call raises instead; [raises] marks the paths at
    which it does.  The exception leaves [save_quad] before [fs::remove];
    it leaves the task's lambda before the splice, so that the task's
    local list is dropped; it is stored in the task's future and comes out
    of [fut.get()], so that [save] is left before the eviction loop.  The
    tasks were all launched before the first [fut.get()], and the future of
    a [std::launch::async] task waits for its task when it is destroyed:
    every task runs to its end.  The file system of the model always
    answers [fs::exists] and [fs::remove]; an error there would travel the
    same way. *)

Definition save_quad_raising (raises : cata_path → bool)
    (dirname filename : cata_path) (om_addr : tripoint)
    (submaps_to_delete : list tripoint) (delete_after_save : bool)
    (w : world submap) : outcome unit * (world submap * list tripoint) :=
  let addrs := submap_addrs om_addr in
  let file_exists := file_exist filename w in
  let '(all_uniform, reverted_to_uniform, m) :=
    inspect_quad file_exists addrs (submaps w) in
  let w := set_submaps m w in
  let submaps_to_delete :=
    if all_uniform && delete_after_save
    then queue_resident (submaps w) addrs submaps_to_delete
    else submaps_to_delete in
  if all_uniform && negb reverted_to_uniform then (Ret tt, (w, submaps_to_delete))
  else
    let w := assure_dir_exist dirname w in
    let '(w, submaps_to_delete, written) :=
      write_to_file filename
        (quad_writer (submaps w) addrs delete_after_save) submaps_to_delete w in
    if negb written && raises filename
    then (Throw "write_to_file", (w, submaps_to_delete))
    else
      let w := if all_uniform && reverted_to_uniform then fs_remove filename w else w in
      (Ret tt, (w, submaps_to_delete)).

(** The body of one task and what its future holds afterwards. *)
Definition run_task_raising (raises : cata_path → bool)
    (acc : world submap * list tripoint * list (outcome unit)) (t : save_task)
  : world submap * list tripoint * list (outcome unit) :=
  let '(w, submaps_to_delete, futures) := acc in
  match save_quad_raising raises (task_dirname t) (task_quad_path t) (task_om_addr t) []
          (task_delete_after_save t || negb (task_inside_reality_bubble t)) w with
  | (Ret _, (w, local_submaps_to_delete)) =>
      (w, submaps_to_delete ++ local_submaps_to_delete, futures ++ [Ret tt])
  | (Throw what, (w, _)) => (w, submaps_to_delete, futures ++ [Throw what])
  end.

(** The loop over [fut.get()]: the first stored exception is rethrown. *)
Fixpoint get_futures (futures : list (outcome unit)) : outcome unit :=
  match futures with
  | [] => Ret tt
  | Ret _ :: rest => get_futures rest
  | Throw what :: _ => Throw what
  end.

Definition save_raising (raises : cata_path → bool) (delete_after_save : bool)
    (w : world submap) : outcome unit * world submap :=
  let w := assure_dir_exist (world_base_save_path env +:+ "/maps") w in
  let tasks := save_tasks delete_after_save (submaps w) in
  let '(w, submaps_to_delete, futures) :=
    foldl (run_task_raising raises) (w, [], []) tasks in
  match get_futures futures with
  | Ret _ => (Ret tt, foldl (λ w elem, remove_submap elem w) w submaps_to_delete)
  | Throw what => (Throw what, w)
  end.

(** ** Loading *)

(** [tripoint_abs_sm loc{ next_int(), next_int(), next_int() }]. *)
Definition read_coordinates (submap_member : JsonValue) : outcome tripoint :=
  match submap_member with
  | JArray coords_array =>
      '(x, coords_array) ← next_int coords_array;
      '(y, coords_array) ← next_int coords_array;
      '(z, _) ← next_int coords_array;
      mret (mk_tripoint x y z)
  | _ => Throw "not an array"
  end.

(** The body of the loop over the members of one record. *)
Definition load_member (version : Z) (acc : submap * tripoint)
    (submap_member : string * JsonValue) : outcome (submap * tripoint) :=
  let '(sm, submap_coordinates) := acc in
  let submap_member_name := submap_member.1 in
  if bool_decide (submap_member_name = "coordinates") then
    loc ← read_coordinates submap_member.2;
    mret (sm, loc)
  else
    sm ← load sm submap_member.2 submap_member_name version;
    mret (sm, submap_coordinates).

Fixpoint load_members (version : Z) (members : JsonMembers) (acc : submap * tripoint)
  : outcome (submap * tripoint) :=
  match members with
  | [] => mret acc
  | submap_member :: rest =>
      acc ← load_member version acc submap_member;
      load_members version rest acc
  end.

(** [int version = 0; if( has_int( "version" ) ) version = get_int( "version" )]. *)
Definition read_version (submap_json : JsonMembers) : outcome Z :=
  if json_has_int submap_json "version" then json_get_int submap_json "version"
  else mret 0.

(** One iteration of the loop of [deserialize], up to the insertion: the
    fresh submap after all its members are loaded, and its coordinates. *)
Definition decode_record (submap_json : JsonMembers) : outcome (submap * tripoint) :=
  version ← read_version submap_json;
  load_members version submap_json (submap_new, tripoint_default).

(** One iteration of the loop of [deserialize]. *)
Definition deserialize_submap (submap_json : JsonMembers) : M unit :=
  '(sm, submap_coordinates) ← lift_outcome (decode_record submap_json);
  '(added, _, m) ← gets (λ w, add_submap submap_coordinates (Some sm) (submaps w));
  if added : bool then modify (set_submaps m)
  else modify (debugmsg (MsgAlreadyLoaded submap_coordinates)).

Fixpoint deserialize_records (ja : list JsonValue) : M unit :=
  match ja with
  | [] => mret tt
  | JObject submap_json :: rest =>
      deserialize_submap submap_json;; deserialize_records rest
  | _ :: _ => throw "not an object"
  end.

(** [void mapbuffer::deserialize( const JsonArray &ja )], entered with the
    file's top-level value. *)
Definition deserialize (jsin : JsonValue) : M unit :=
  match jsin with
  | JArray ja => deserialize_records ja
  | _ => throw "not an array"
  end.

(** Modelled from the spec: [read_from_file_optional_json] of
    [cata_utility.h], which is not under src/.  A missing file is "no
    data"; a corrupt or unreadable file, or a reader that throws, is
    caught at this boundary, reported with the path and the cause, and
    treated like a missing file. *)
Definition read_from_file_optional_json (path : cata_path) (reader : JsonValue → M unit)
  : M bool := λ w,
  match files w !! path with
  | None => (Ret false, w)
  | Some FileGarbage => (Ret false, debugmsg (MsgFailedToRead path "parse error") w)
  | Some (FileJson jsin) =>
      match reader jsin w with
      | (Ret _, w) => (Ret true, w)
      | (Throw what, w) => (Ret false, debugmsg (MsgFailedToRead path what) w)
      end
  end.

(** The name the quad file had in old saves: the three numbers put through
    a [std::ostringstream]. *)
Definition legacy_quad_name (om_addr : tripoint) : string :=
  locale_put env (tx om_addr) +:+ "." +:+ locale_put env (ty om_addr) +:+ "."
    +:+ locale_put env (tz om_addr) +:+ ".map".

(** The path [unserialize_submaps] reads: the quad path, or the legacy
    path when only that one exists. *)
Definition resolve_quad_path (dirname : cata_path) (om_addr : tripoint)
    (w : world submap) : cata_path :=
  let quad_path := find_quad_path dirname om_addr in
  if negb (file_exist quad_path w) then
    let legacy_quad_path := path_join dirname (legacy_quad_name om_addr) in
    if file_exist legacy_quad_path w then legacy_quad_path else quad_path
  else quad_path.

(** [unserialize_submaps] from the read on. *)
Definition unserialize_from (quad_path : cata_path) (p om_addr : tripoint)
  : M (option submap) :=
  loaded ← read_from_file_optional_json quad_path deserialize;
  if negb loaded then mret None
  else
    let oid := overmap_ter env om_addr in
    modify (λ w, set_submaps
                   (generate_uniform_omt env (project_to_sm om_addr) oid (submaps w)) w);;
    present ← gets (λ w, bool_decide (is_Some (submaps w !! p)));
    if negb present then
      modify (debugmsg (MsgMissingSubmap quad_path p oid));;
      mret None
    else
      '(sm, m) ← gets (λ w, submaps_index p (submaps w));
      modify (set_submaps m);;
      mret sm.

Definition unserialize_submaps (p : tripoint) : M (option submap) :=
  let om_addr := project_to_omt p in
  let dirname := find_dirname (world_base_save_path env) om_addr in
  quad_path ← gets (resolve_quad_path dirname om_addr);
  unserialize_from quad_path p om_addr.

Definition lookup_submap (p : tripoint) : M (option submap) :=
  iter ← gets (λ w, submaps w !! p);
  match iter with
  | None =>
      try_catch (unserialize_submaps p)
                (λ what, modify (debugmsg (MsgFailedToLoad p what));; mret None)
  | Some entry => mret entry
  end.

Definition submap_exists (p : tripoint) : M bool :=
  iter ← gets (λ w, submaps w !! p);
  match iter with
  | None =>
      try_catch (sm ← unserialize_submaps p; mret (bool_decide (is_Some sm)))
                (λ what, modify (debugmsg (MsgFailedToLoad p what));; mret false)
  | Some _ => mret true
  end.

(** ** Eviction outside the reality bubble *)

(** [void mapbuffer::clear_outside_reality_bubble()]: the loop walks the
    keys in order and erases the entries whose key is not inside;
    [here_inbounds] is [get_map().inbounds] on submap coordinates. *)
Definition clear_outside_reality_bubble (here_inbounds : tripoint → bool)
    (w : world submap) : world submap :=
  set_submaps
    (foldl (λ m key, if here_inbounds key then m else delete key m)
           (submaps w) (cache_keys (submaps w))) w.

(** ** Derived notions

    Not part of the source: the vocabulary in which the facts below are
    stated. *)

(** The chunk resident at an address: the key is present and its pointer
    is not null. *)
Definition resident (m : cache) (addr : tripoint) : option submap :=
  match m !! addr with
  | Some (Some sm) => Some sm
  | _ => None
  end.

(** The buffer after indexing every address of a list. *)
Definition index_all (addrs : list tripoint) (m : cache) : cache :=
  foldl (λ m addr, (submaps_index addr m).2) m addrs.

(** Every chunk resident at one of the addresses is uniform. *)
Definition quad_all_uniform (m : cache) (addrs : list tripoint) : bool :=
  forallb (λ addr, match resident m addr with
                   | Some sm => is_uniform sm
                   | None => true
                   end) addrs.

(** Some chunk resident at one of the addresses is uniform and flagged
    reverted. *)
Definition quad_has_reverted (m : cache) (addrs : list tripoint) : bool :=
  existsb (λ addr, match resident m addr with
                   | Some sm => is_uniform sm && reverted sm
                   | None => false
                   end) addrs.

(** The addresses of a list at which a chunk is resident. *)
Definition resident_addrs (m : cache) (addrs : list tripoint) : list tripoint :=
  filter (λ addr, is_Some (resident m addr)) addrs.

(** The records of the chunks resident at the addresses, in order. *)
Definition quad_records (m : cache) (addrs : list tripoint) : list JsonValue :=
  omap (λ addr, submap_record addr <$> resident m addr) addrs.

(** The file of a quad, and of the quad a submap belongs to. *)
Definition quad_file (om_addr : tripoint) : cata_path :=
  find_quad_path (find_dirname (world_base_save_path env) om_addr) om_addr.

Definition submap_file (p : tripoint) : cata_path := quad_file (project_to_omt p).

(** The capture of the task [save] launches for a quad. *)
Definition task_of_quad (delete_after_save : bool) (om_addr : tripoint) : save_task :=
  mk_save_task (find_dirname (world_base_save_path env) om_addr) (quad_file om_addr)
               om_addr delete_after_save (inbounds env om_addr).

(** [save_quad] gets as far as [write_to_file] for the quad: not all its
    resident chunks are uniform, or one of them is reverted and the file
    exists. *)
Definition quad_is_written (om_addr : tripoint) (w : world submap) : bool :=
  negb (quad_all_uniform (submaps w) (submap_addrs om_addr)
        && negb (quad_has_reverted (submaps w) (submap_addrs om_addr)
                 && file_exist (quad_file om_addr) w)).

(** The coordinates a record of a quad file carries, as the loader reads
    them. *)
Definition record_coordinates (record : JsonValue) : option tripoint :=
  match record with
  | JObject members =>
      match json_member "coordinates" members with
      | Some coords =>
          match read_coordinates coords with
          | Ret p => Some p
          | Throw _ => None
          end
      | None => None
      end
  | _ => None
  end.

(** A sequence of calls of [load], each given as the member name, the member
    and the version, applied to a chunk one after the other. *)
Fixpoint replay_loads (calls : list (string * JsonValue * Z)) (sm : submap)
  : outcome submap :=
  match calls with
  | [] => mret sm
  | (name, val, version) :: rest =>
      sm ← load sm val name version;
      replay_loads rest sm
  end.


End mapbuffer.

(** The environment with another outcome of the writes. *)
Definition with_write_io {submap} (io : cata_path → write_outcome)
    (env : environment submap) : environment submap :=
  mk_environment (world_base_save_path env) (savegame_version env) (inbounds env) io
                 (locale_put env) (overmap_ter env) (generate_uniform_omt env).

(** The environment in which the write of one path commits and every other
    write ends as before. *)
Definition with_commit_at {submap} (q : cata_path) (env : environment submap)
  : environment submap :=
  with_write_io (λ path, if bool_decide (path = q) then Committed else write_io env path) env.

(** * A concrete chunk and environment

    The buffer treats the chunk's payload as opaque.  The chunk below keeps
    its two flags and the list of members it was handed by [load], each with
    the version it was decoded under; a member other than the version makes
    it non-uniform, and [store] writes those members back. *)

Module Recording.

Record chunk := mk_chunk {
  chunk_uniform : bool;
  chunk_reverted : bool;
  chunk_decoded : list (string * JsonValue * Z);
}.

#[global] Instance chunk_ops : SubmapOps chunk := {|
  submap_new := mk_chunk true false [];
  is_uniform := chunk_uniform;
  reverted := chunk_reverted;
  store := λ c, (λ d, (d.1.1, d.1.2))
                  <$> filter (λ d, d.1.1 ≠ "version") (chunk_decoded c);
  load := λ c v name version,
    Ret (mk_chunk (chunk_uniform c && bool_decide (name = "version")) (chunk_reverted c)
                  (chunk_decoded c ++ [(name, v, version)]));
|}.

(** A locale whose [num_put] groups digits by thousands with a comma. *)
Fixpoint group_digits (rev_digits : list ascii) (since_sep : nat) : list ascii :=
  match rev_digits with
  | [] => []
  | d :: rest =>
      if Nat.eqb since_sep 3 then ("," :: d :: group_digits rest 1)%char
      else d :: group_digits rest (S since_sep)
  end.

Definition put_grouped (n : Z) : string :=
  (if bool_decide (n < 0) then "-" else "")
    +:+ String.string_of_list_ascii
          (rev (group_digits (rev (String.list_ascii_of_string (pretty (Z.abs n)))) 0)).

(** The "C" locale: no grouping. *)
Definition put_plain (n : Z) : string := pretty n.

(** Terrain whose submaps are regenerated rather than stored. *)
Definition uniform_terrain (oid : string) : bool :=
  bool_decide (oid = "open_air") || bool_decide (oid = "empty_rock").

(** Modelled from the spec: [generate_uniform_omt] of [mapgen.cpp], which
    is not under src/.  When the terrain is uniform, every submap of the
    quad still absent from the buffer is synthesized as a fresh uniform
    chunk and inserted. *)
Definition synthesize_uniform (p : tripoint) (oid : string)
    (m : gmap tripoint (option chunk)) : gmap tripoint (option chunk) :=
  if uniform_terrain oid then
    foldl (λ m offset, (add_submap (tripoint_add p offset)
                                   (Some (mk_chunk true false [])) m).2) m offsets
  else m.

Definition demo_env (bubble : tripoint → bool) (io : cata_path → write_outcome)
    (put : Z → string) (ter : tripoint → string) : environment chunk :=
  mk_environment "w" 33 bubble io put ter synthesize_uniform.

(** Chunks: dug-up dirt, untouched air, and air that was dirt when the
    quad was last written. *)
Definition dirt : chunk := mk_chunk false false [("terrain", JString "t_dirt", 33)].
Definition air : chunk := mk_chunk true false [].
Definition air_reverted : chunk := mk_chunk true true [].

(** The quad at the origin, its directory and its file. *)
Definition origin : tripoint := mk_tripoint 0 0 0.
Definition origin_dir : cata_path := "w/maps/0.0.0".
Definition origin_file : cata_path := "w/maps/0.0.0/0.0.0.map".

(** Everything inside the bubble, every write commits, "C" locale. *)
Definition calm_env : environment chunk :=
  demo_env (λ _, true) (λ _, Committed) put_plain (λ _, "field").

(** The quad was saved with dirt in it; now all four submaps are air. *)
Definition tombstone_world : world chunk :=
  mk_world {[ mk_tripoint 0 0 0 := Some air_reverted;
              mk_tripoint 0 1 0 := Some air;
              mk_tripoint 1 0 0 := Some air;
              mk_tripoint 1 1 0 := Some air ]}
           {[ origin_file := FileJson (JArray [submap_record calm_env origin dirt]) ]}
           {[ origin_dir ]} [].

(** One uniform submap of the quad is resident, nothing is on disk. *)
Definition partial_world : world chunk :=
  mk_world {[ mk_tripoint 0 0 0 := Some air ]} ∅ ∅ [].

(** Two quads: dirt in the quad at the origin and dirt in its eastern
    neighbour. *)
Definition east : tripoint := mk_tripoint 1 0 0.
Definition east_file : cata_path := "w/maps/0.0.0/1.0.0.map".

Definition dirt_world : world chunk :=
  mk_world {[ mk_tripoint 0 0 0 := Some dirt; mk_tripoint 2 0 0 := Some dirt ]} ∅ ∅ [].

(** The write of the origin quad fails once the writer has run; every other
    write commits. *)
Definition failing_env : environment chunk :=
  demo_env (λ _, true)
           (λ path, if bool_decide (path = origin_file) then FailedAfterWriter
                    else Committed)
           put_plain (λ _, "field").

(** The write of the origin quad fails before the writer runs. *)
Definition failing_early_env : environment chunk :=
  demo_env (λ _, true)
           (λ path, if bool_decide (path = origin_file) then FailedBeforeWriter
                    else Committed)
           put_plain (λ _, "field").

(** The write of the origin quad fails, after or before the writer ran,
    and the failure raises or is returned. *)
Definition failing_origin_env (writer_ran : bool) : environment chunk :=
  if writer_ran then failing_env else failing_early_env.

Definition raises_at_origin (raised : bool) (path : cata_path) : bool :=
  raised && bool_decide (path = origin_file).

(** Only the quad at the origin is inside the reality bubble. *)
Definition bubble_env : environment chunk :=
  demo_env (λ om_addr, bool_decide (om_addr = origin)) (λ _, Committed)
           put_plain (λ _, "field").

(** A record whose version member comes last, and one without a version. *)
Definition record_version_last : JsonMembers :=
  [("terrain", JString "t_dirt");
   ("coordinates", JArray [JInt 0; JInt 0; JInt 0]);
   ("version", JInt 33)].

Definition record_no_version : JsonMembers :=
  [("coordinates", JArray [JInt 0; JInt 0; JInt 0]);
   ("terrain", JString "t_dirt")].

(** Nothing is resident; the file of the origin quad holds one record, for
    the submap at the origin. *)
Definition saved_world : world chunk :=
  mk_world ∅ {[ origin_file := FileJson (JArray [JObject record_version_last]) ]}
           {[ origin_dir ]} [].

(** An old save: the quad (1234, 7, 0) exists only under the name a grouping
    locale gave it. *)
Definition old_quad : tripoint := mk_tripoint 1234 7 0.
Definition old_submap : tripoint := mk_tripoint 2468 14 0.
Definition old_file : cata_path := "w/maps/38.0.0/1,234.7.0.map".

Definition grouping_env : environment chunk :=
  demo_env (λ _, true) (λ _, Committed) put_grouped (λ _, "field").

Definition old_world : world chunk :=
  mk_world ∅
    {[ old_file :=
         FileJson (JArray [JObject [("version", JInt 33);
                                    ("coordinates", JArray [JInt 2468; JInt 14; JInt 0]);
                                    ("terrain", JString "t_dirt")]]) ]}
    ∅ [].

(** Dirt as it comes back from the disk: the version member was handed to
    [load] first, then the stored member. *)
Definition loaded_dirt : chunk :=
  mk_chunk false false [("version", JInt 33, 33); ("terrain", JString "t_dirt", 33)].

Definition loaded_world : world chunk :=
  mk_world {[ mk_tripoint 0 0 0 := Some loaded_dirt ]} ∅ ∅ [].

(** Dirt as [record_version_last] decodes: the stored member was handed
    to [load] before the version member. *)
Definition dirt_version_last : chunk :=
  mk_chunk false false [("terrain", JString "t_dirt", 33); ("version", JInt 33, 33)].

(** The key of the origin is in the buffer with a null pointer, as
    [save_quad] leaves it behind for a submap that was not resident. *)
Definition null_world : world chunk :=
  mk_world {[ mk_tripoint 0 0 0 := None ]} ∅ ∅ [].

(** A record without coordinates, and an array whose second element is not
    an object. *)
Definition record_no_coordinates : JsonMembers :=
  [("version", JInt 33); ("terrain", JString "t_dirt")].

Definition broken_array_front : list JsonValue := [JObject record_version_last].
Definition broken_array_back : list JsonValue :=
  [JObject [("version", JInt 33);
            ("coordinates", JArray [JInt 1; JInt 0; JInt 0]);
            ("terrain", JString "t_dirt")]].

End Recording.

(** * Paths: distinct quads have distinct files *)

Example find_quad_path_ex :
  find_quad_path (find_dirname "save/w" (mk_tripoint 70 (-3) 1)) (mk_tripoint 70 (-3) 1)
  = "save/w/maps/2.-1.1/70.-3.1.map".
Proof. vm_compute. reflexivity. Qed.

Lemma string_app_assoc (a b c : string) : (a +:+ b) +:+ c = a +:+ (b +:+ c).
Proof.
  induction a as [|x a IH]; [done|].
  change (String x ((a +:+ b) +:+ c) = String x (a +:+ (b +:+ c))). by f_equal.
Qed.

Lemma free_of_app c s1 s2 : free_of c s1 → free_of c s2 → free_of c (s1 +:+ s2).
Proof.
  induction s1 as [|a s1 IH]; [done|].
  change (free_of c (String a s1) → free_of c s2 → free_of c (String a (s1 +:+ s2))).
  intros [??] ?. split; auto.
Qed.

Lemma app_split_at c s1 s2 r1 r2 :
  free_of c s1 → free_of c s2 →
  s1 +:+ String c r1 = s2 +:+ String c r2 → s1 = s2 ∧ r1 = r2.
Proof.
  revert s2. induction s1 as [|a s1 IH]; intros [|b s2]; cbn.
  - intros _ _ [= ->]. done.
  - intros _ [Hb _] [= <- _]. done.
  - intros [Ha _] _ [= -> _]. done.
  - intros [_ H1] [_ H2] [= -> Heq]. destruct (IH s2 H1 H2 Heq) as [-> ->]. done.
Qed.

Lemma pretty_N_go_free c x s :
  (∀ n, pretty_N_char n ≠ c) → free_of c s → free_of c (pretty_N_go x s).
Proof.
  intros Hc. revert s. induction (N.lt_wf_0 x) as [x _ IH]; intros s Hs.
  assert (x = 0 ∨ 0 < x)%N as [->|Hpos] by lia.
  - by rewrite pretty_N_go_0.
  - rewrite pretty_N_go_step by done. apply IH.
    + apply N.div_lt; lia.
    + split; [apply Hc|done].
Qed.

Lemma pretty_N_char_not c :
  Ascii.is_nat c = None → ∀ n, pretty_N_char n ≠ c.
Proof.
  intros Hc n <-. unfold pretty_N_char in Hc. by repeat case_match.
Qed.

Lemma pretty_Z_free c (z : Z) :
  Ascii.is_nat c = None → c ≠ "-"%char → free_of c (pretty z).
Proof.
  intros Hc Hdash. pose proof (pretty_N_char_not c Hc) as Hn.
  assert (∀ x : positive, free_of c (pretty x)) as Hpos.
  { intros x. unfold pretty, pretty_positive, pretty, pretty_N.
    case_decide; [done|]. by apply pretty_N_go_free. }
  unfold pretty, pretty_Z. destruct z as [|x|x].
  - cbn. split; [|done]. intros <-. done.
  - apply Hpos.
  - cbn. split; [by intros <-|]. apply Hpos.
Qed.

Lemma format_ddd_unfold p :
  format_ddd p =
    pretty (tx p) +:+ String "." (pretty (ty p) +:+ String "." (pretty (tz p))).
Proof. done. Qed.

Lemma format_ddd_free c p :
  Ascii.is_nat c = None → c ≠ "-"%char → c ≠ "."%char → free_of c (format_ddd p).
Proof.
  intros Hc Hdash Hdot. rewrite format_ddd_unfold.
  apply free_of_app; [by apply pretty_Z_free|]. split; [congruence|].
  apply free_of_app; [by apply pretty_Z_free|]. split; [congruence|].
  by apply pretty_Z_free.
Qed.

Lemma format_ddd_inj p1 p2 r1 r2 :
  format_ddd p1 +:+ String "." r1 = format_ddd p2 +:+ String "." r2 → p1 = p2 ∧ r1 = r2.
Proof.
  rewrite !format_ddd_unfold, !string_app_assoc.
  change (?a +:+ String "." ?b +:+ ?c) with (a +:+ String "." (b +:+ c)).
  rewrite !string_app_assoc.
  change (?a +:+ String "." ?b +:+ ?c) with (a +:+ String "." (b +:+ c)).
  intros Heq.
  apply app_split_at in Heq as [Hx Heq]; [|by apply pretty_Z_free..].
  apply app_split_at in Heq as [Hy Heq]; [|by apply pretty_Z_free..].
  apply app_split_at in Heq as [Hz Heq]; [|by apply pretty_Z_free..].
  apply (inj pretty) in Hx, Hy, Hz. destruct p1, p2; simpl in *. by subst.
Qed.

Lemma quad_file_unfold {submap} (env : environment submap) (om : tripoint) :
  quad_file env om =
    (world_base_save_path env +:+ "/maps/")
      +:+ (format_ddd (project_to_seg om) +:+ String "/" (format_ddd om +:+ String "." "map")).
Proof.
  unfold quad_file, find_quad_path, find_dirname, path_join.
  rewrite !string_app_assoc. done.
Qed.

(** Distinct quads have distinct files. *)
Lemma quad_file_inj {submap} (env : environment submap) (om1 om2 : tripoint) :
  quad_file env om1 = quad_file env om2 → om1 = om2.
Proof.
  rewrite !quad_file_unfold. intros Heq.
  apply (inj (String.app _)) in Heq.
  apply app_split_at in Heq as [_ Heq]; [|by apply format_ddd_free..].
  by apply format_ddd_inj in Heq as [-> _].
Qed.

(** * Facts about the buffer as a map *)

Section cache_facts.
Context {submap : Type} `{!SubmapOps submap}.

Local Abbreviation cache := (gmap tripoint (option submap)).

Lemma set_submaps_id (w : world submap) : set_submaps (submaps w) w = w.
Proof. by destruct w. Qed.

Lemma submaps_index_present (m : cache) addr entry :
  m !! addr = Some entry → submaps_index addr m = (entry, m).
Proof. unfold submaps_index. by intros ->. Qed.

Lemma submaps_index_absent (m : cache) addr :
  m !! addr = None → submaps_index addr m = (None, <[addr := None]> m).
Proof. unfold submaps_index. by intros ->. Qed.

Lemma submaps_index_fst (m : cache) addr :
  (submaps_index addr m).1 = resident m addr.
Proof. unfold submaps_index, resident. by destruct (m !! addr) as [[?|]|]. Qed.

Lemma submaps_index_lookup (m : cache) addr p :
  (submaps_index addr m).2 !! p =
    if bool_decide (p = addr ∧ m !! p = None) then Some None else m !! p.
Proof.
  unfold submaps_index. destruct (m !! addr) as [entry|] eqn:Hm; simpl.
  - rewrite bool_decide_eq_false_2; [done|]. intros [-> ?]. congruence.
  - case_bool_decide as Hd.
    + destruct Hd as [-> _]. apply lookup_insert_eq.
    + rewrite lookup_insert_ne; [done|]. intros <-. by apply Hd.
Qed.

Lemma submaps_index_resident (m : cache) addr p :
  resident (submaps_index addr m).2 p = resident m p.
Proof.
  unfold resident. rewrite submaps_index_lookup.
  case_bool_decide as Hd; [|done]. by destruct Hd as [_ ->].
Qed.

Lemma index_all_resident addrs (m : cache) p :
  resident (index_all addrs m) p = resident m p.
Proof.
  revert m. induction addrs as [|a addrs IH]; intros m; simpl; [done|].
  unfold index_all in *. simpl. by rewrite IH, submaps_index_resident.
Qed.

Lemma index_all_lookup addrs (m : cache) p :
  index_all addrs m !! p =
    if bool_decide (p ∈ addrs ∧ m !! p = None) then Some None else m !! p.
Proof.
  revert m. induction addrs as [|a addrs IH]; intros m.
  - rewrite bool_decide_eq_false_2; [done|]. intros [Hin _]. inversion Hin.
  - unfold index_all in *. simpl. rewrite IH, submaps_index_lookup.
    destruct (m !! p) as [entry|] eqn:Hp.
    + rewrite (bool_decide_eq_false_2 (p = a ∧ _)) by (by intros [_ ?]).
      rewrite !bool_decide_eq_false_2 by (by intros [_ ?]). done.
    + destruct (decide (p = a)) as [->|Hne].
      * rewrite (bool_decide_eq_true_2 (a = a ∧ _)) by done.
        rewrite bool_decide_eq_false_2 by (by intros [_ ?]).
        rewrite bool_decide_eq_true_2; [done|]. split; [apply list_elem_of_here|done].
      * rewrite (bool_decide_eq_false_2 (p = a ∧ _)) by (by intros [? _]).
        apply (f_equal (λ b : bool, if b then Some None else None)).
        apply bool_decide_ext. rewrite elem_of_cons. tauto.
Qed.

(** *** The loops of [save_quad] in closed form *)

Lemma inspect_quad_fold file_exists addrs (m m0 : cache) all_uniform reverted_to_uniform :
  (∀ p, resident m p = resident m0 p) →
  foldl (inspect_submap file_exists) (all_uniform, reverted_to_uniform, m) addrs =
    (all_uniform && quad_all_uniform m0 addrs,
     if quad_has_reverted m0 addrs then file_exists else reverted_to_uniform,
     index_all addrs m).
Proof.
  revert m all_uniform reverted_to_uniform.
  induction addrs as [|a addrs IH]; intros m au ru Hres.
  - simpl. by rewrite andb_true_r.
  - cbn [foldl quad_all_uniform quad_has_reverted forallb existsb index_all].
    unfold inspect_submap at 2.
    destruct (submaps_index a m) as [sm m'] eqn:Hidx.
    assert (sm = resident m0 a) as ->.
    { rewrite <-Hres, <-submaps_index_fst. by rewrite Hidx. }
    assert (∀ p, resident m' p = resident m0 p) as Hres'.
    { intros p. rewrite <-Hres. replace m' with (submaps_index a m).2 by by rewrite Hidx.
      apply submaps_index_resident. }
    destruct (resident m0 a) as [s|]; simpl.
    + destruct (is_uniform s); simpl.
      * destruct (reverted s); simpl; rewrite (IH _ _ _ Hres'); [|done].
        unfold quad_has_reverted. by destruct (existsb _ addrs).
      * rewrite (IH _ _ _ Hres'). by rewrite andb_false_r.
    + by rewrite (IH _ _ _ Hres').
Qed.

Lemma inspect_quad_eq file_exists addrs (m : cache) :
  inspect_quad file_exists addrs m =
    (quad_all_uniform m addrs, quad_has_reverted m addrs && file_exists,
     index_all addrs m).
Proof.
  unfold inspect_quad. rewrite (inspect_quad_fold _ _ _ m) by done. simpl.
  by destruct (quad_has_reverted m addrs), file_exists.
Qed.

Lemma queue_resident_eq (m : cache) addrs submaps_to_delete :
  queue_resident m addrs submaps_to_delete = submaps_to_delete ++ resident_addrs m addrs.
Proof.
  unfold queue_resident, resident_addrs. revert submaps_to_delete.
  induction addrs as [|a addrs IH]; intros acc; simpl.
  - by rewrite app_nil_r.
  - rewrite IH. destruct (m !! a) as [[s|]|] eqn:Hma.
    + rewrite filter_cons_True; [by rewrite <-app_assoc|].
      unfold resident. rewrite Hma. eauto.
    + rewrite filter_cons_False; [done|].
      unfold resident. rewrite Hma. by intros [].
    + rewrite filter_cons_False; [done|].
      unfold resident. rewrite Hma. by intros [].
Qed.

Lemma resident_addrs_ext (m1 m2 : cache) addrs :
  (∀ p, resident m1 p = resident m2 p) → resident_addrs m1 addrs = resident_addrs m2 addrs.
Proof.
  intros Hres. unfold resident_addrs.
  induction addrs as [|a addrs IH]; [done|].
  rewrite !filter_cons, IH. repeat case_decide; try done.
  all: exfalso; rewrite Hres in *; tauto.
Qed.

Lemma elem_of_resident_addrs (m : cache) addrs p :
  p ∈ resident_addrs m addrs ↔ p ∈ addrs ∧ is_Some (resident m p).
Proof. unfold resident_addrs. rewrite list_elem_of_filter. tauto. Qed.

Variable env : environment submap.

Lemma quad_records_ext (m1 m2 : cache) addrs :
  (∀ p, resident m1 p = resident m2 p) → quad_records env m1 addrs = quad_records env m2 addrs.
Proof.
  intros Hres. unfold quad_records.
  induction addrs as [|a addrs IH]; [done|]. csimpl. by rewrite IH, Hres.
Qed.

Lemma quad_writer_eq (m : cache) addrs delete_after_save submaps_to_delete :
  quad_writer env m addrs delete_after_save submaps_to_delete =
    (quad_records env m addrs,
     if delete_after_save then submaps_to_delete ++ resident_addrs m addrs
     else submaps_to_delete).
Proof.
  unfold quad_writer.
  enough (∀ records to_delete,
    foldl (λ acc submap_addr,
             let '(records, to_delete) := acc in
             match m !! submap_addr with
             | None => acc
             | Some None => acc
             | Some (Some sm) =>
                 (records ++ [submap_record env submap_addr sm],
                  if delete_after_save then to_delete ++ [submap_addr] else to_delete)
             end) (records, to_delete) addrs =
    (records ++ quad_records env m addrs,
     if delete_after_save then to_delete ++ resident_addrs m addrs else to_delete))
    as Hgen by apply (Hgen []).
  unfold quad_records, resident_addrs.
  induction addrs as [|a addrs IH]; intros records to_delete.
  - simpl. rewrite !app_nil_r. by destruct delete_after_save.
  - cbn [foldl]. rewrite filter_cons. csimpl.
    destruct (m !! a) as [[s|]|] eqn:Hma; rewrite IH.
    + assert (resident m a = Some s) as -> by (unfold resident; by rewrite Hma).
      rewrite decide_True by eauto. csimpl. rewrite <-!app_assoc. simpl.
      destruct delete_after_save; [|done]. by rewrite <-app_assoc.
    + assert (resident m a = None) as -> by (unfold resident; by rewrite Hma).
      rewrite decide_False; [done|]. by intros [].
    + assert (resident m a = None) as -> by (unfold resident; by rewrite Hma).
      rewrite decide_False; [done|]. by intros [].
Qed.

(** *** [save_quad] in closed form *)

Lemma save_quad_eq dirname filename om_addr submaps_to_delete delete_after_save
    (w : world submap) :
  save_quad env dirname filename om_addr submaps_to_delete delete_after_save w =
    let addrs := submap_addrs om_addr in
    let all_uniform := quad_all_uniform (submaps w) addrs in
    let reverted_to_uniform :=
      quad_has_reverted (submaps w) addrs && file_exist filename w in
    let queued := resident_addrs (submaps w) addrs in
    let w0 := set_submaps (index_all addrs (submaps w)) w in
    let early :=
      if all_uniform && delete_after_save then submaps_to_delete ++ queued
      else submaps_to_delete in
    if all_uniform && negb reverted_to_uniform then (w0, early)
    else
      let w1 := assure_dir_exist dirname w0 in
      let late := if delete_after_save then early ++ queued else early in
      let tombstone (w : world submap) :=
        if all_uniform && reverted_to_uniform then fs_remove filename w else w in
      match write_io env filename with
      | Committed =>
          (tombstone
             (set_files (<[filename :=
                             FileJson (JArray (quad_records env (submaps w) addrs))]>
                           (files w1)) w1), late)
      | FailedBeforeWriter => (tombstone w1, early)
      | FailedAfterWriter => (tombstone w1, late)
      end.
Proof.
  unfold save_quad. rewrite inspect_quad_eq. cbv zeta.
  set (addrs := submap_addrs om_addr).
  assert (∀ p, resident (index_all addrs (submaps w)) p = resident (submaps w) p)
    as Hres by apply index_all_resident.
  cbn [submaps set_submaps]. rewrite queue_resident_eq.
  rewrite (resident_addrs_ext _ _ _ Hres).
  destruct (quad_all_uniform (submaps w) addrs && negb _); [done|].
  unfold write_to_file. rewrite quad_writer_eq. cbn [submaps set_submaps assure_dir_exist].
  rewrite (resident_addrs_ext _ _ _ Hres), (quad_records_ext _ _ _ Hres).
  by destruct (write_io env filename).
Qed.

Lemma quad_all_uniform_true (m : cache) addrs :
  quad_all_uniform m addrs = true ↔
  ∀ addr sm, addr ∈ addrs → resident m addr = Some sm → is_uniform sm = true.
Proof.
  unfold quad_all_uniform. rewrite forallb_forall. split.
  - intros Hall addr sm Hin Hres. apply list_elem_of_In, Hall in Hin.
    by rewrite Hres in Hin.
  - intros Hall addr Hin. apply list_elem_of_In in Hin.
    destruct (resident m addr) as [sm|] eqn:Hres; [|done]. by eapply Hall.
Qed.

Lemma quad_has_reverted_true (m : cache) addrs :
  quad_has_reverted m addrs = true ↔
  ∃ addr sm, addr ∈ addrs ∧ resident m addr = Some sm
             ∧ is_uniform sm = true ∧ reverted sm = true.
Proof.
  unfold quad_has_reverted. rewrite existsb_exists. split.
  - intros (addr & Hin & Hres). apply list_elem_of_In in Hin.
    destruct (resident m addr) as [sm|] eqn:?; [|done].
    apply andb_true_iff in Hres as [??]. by exists addr, sm.
  - intros (addr & sm & Hin & Hres & Hu & Hr). exists addr.
    split; [by apply list_elem_of_In|]. by rewrite Hres, Hu, Hr.
Qed.

Lemma resident_Some (m : cache) addr sm :
  resident m addr = Some sm ↔ m !! addr = Some (Some sm).
Proof.
  unfold resident. destruct (m !! addr) as [[?|]|]; split; intros; by simplify_eq.
Qed.

Lemma record_coordinates_submap_record addr sm :
  record_coordinates (submap_record env addr sm) = Some addr.
Proof. by destruct addr. Qed.

Lemma elem_of_quad_records (m : cache) addrs record :
  record ∈ quad_records env m addrs ↔
  ∃ addr sm, addr ∈ addrs ∧ resident m addr = Some sm
             ∧ record = submap_record env addr sm.
Proof.
  unfold quad_records. rewrite list_elem_of_omap. split.
  - intros (addr & Hin & Hrec). destruct (resident m addr) as [sm|] eqn:?; [|done].
    simpl in Hrec. exists addr, sm. by simplify_eq.
  - intros (addr & sm & Hin & Hres & ->). exists addr. by rewrite Hres.
Qed.

(** The tombstone case in terms of the flags of the first loop. *)
Lemma save_quad_tombstone dirname filename om_addr submaps_to_delete delete_after_save
    (w : world submap) :
  file_exist filename w = true →
  quad_all_uniform (submaps w) (submap_addrs om_addr) = true →
  quad_has_reverted (submaps w) (submap_addrs om_addr) = true →
  files (save_quad env dirname filename om_addr submaps_to_delete delete_after_save w).1
    !! filename = None.
Proof.
  intros Hfile Hall Hrev. rewrite save_quad_eq. cbv zeta.
  rewrite Hfile, Hall, Hrev. simpl.
  destruct (write_io env filename); simpl; apply lookup_delete_eq.
Qed.

End cache_facts.

(** * Insertion *)

Section insertion.
Context {submap : Type} `{!SubmapOps submap}.

(** C3.  Inserting at a coordinate that is already resident is rejected
    and changes nothing: [add_submap] returns [false], the buffer is the
    same map as before (so the chunk stored at the coordinate is neither
    replaced nor modified), and the caller's [unique_ptr] still holds the
    rejected chunk.  Through the raw-pointer overload the result is
    [false], the buffer is unchanged, and nothing is deleted when the
    temporary owner goes out of scope. *)
Theorem add_submap_rejects_resident (p : tripoint) (sm : option submap)
    (m : gmap tripoint (option submap)) :
  is_Some (m !! p) →
  add_submap p sm m = (false, sm, m) ∧
  add_submap_raw p sm m = (false, None, m).
Proof.
  intros Hres. unfold add_submap_raw, add_submap.
  by rewrite bool_decide_eq_true_2.
Qed.

(** A free coordinate takes the chunk, and the caller's pointer is left
    null. *)
Lemma add_submap_accepts_free (p : tripoint) (sm : option submap)
    (m : gmap tripoint (option submap)) :
  m !! p = None →
  add_submap p sm m = (true, None, <[p := sm]> m) ∧
  add_submap_raw p sm m = (true, None, <[p := sm]> m).
Proof.
  intros Hfree. unfold add_submap_raw, add_submap.
  rewrite bool_decide_eq_false_2; [done|]. rewrite Hfree. by intros [].
Qed.

End insertion.

(** * Saving one quad *)

Section save_quad_claims.
Context {submap : Type} `{!SubmapOps submap}.
Variable env : environment submap.

(** C1.  Tombstone: when the quad's file exists, each of the four submaps
    of the quad is resident and uniform, and one of them is flagged
    reverted, no file is left at the quad's path after [save_quad],
    however the write of the file ends. *)
Theorem tombstone_deletes_file dirname filename om_addr submaps_to_delete
    delete_after_save (w : world submap) :
  is_Some (files w !! filename) →
  (∀ addr, addr ∈ submap_addrs om_addr →
     ∃ sm, submaps w !! addr = Some (Some sm) ∧ is_uniform sm = true) →
  (∃ addr sm, addr ∈ submap_addrs om_addr ∧ submaps w !! addr = Some (Some sm)
              ∧ reverted sm = true) →
  files (save_quad env dirname filename om_addr submaps_to_delete delete_after_save w).1
    !! filename = None.
Proof.
  intros Hfile Hall (addr & sm & Hin & Hsm & Hrev).
  apply save_quad_tombstone.
  - unfold file_exist. by apply bool_decide_eq_true_2.
  - apply quad_all_uniform_true. intros a s Ha Hs.
    destruct (Hall a Ha) as (s' & Hs' & Hu). apply resident_Some in Hs. congruence.
  - apply quad_has_reverted_true. exists addr, sm.
    destruct (Hall addr Hin) as (s' & Hs' & Hu).
    assert (s' = sm) as -> by congruence.
    by rewrite resident_Some.
Qed.

(** C9.  [save_quad] writes to the buffer: a coordinate of the quad that
    is absent before the call is present afterwards and maps to the null
    pointer.  No record is written for it: the writer emits no record with
    these coordinates, and the quad file afterwards is the old one, or
    gone, or holds exactly the writer's records. *)
Theorem save_quad_inserts_null_entries dirname filename om_addr submaps_to_delete
    delete_after_save (w : world submap) (p : tripoint) :
  p ∈ submap_addrs om_addr →
  submaps w !! p = None →
  let w' := (save_quad env dirname filename om_addr submaps_to_delete
                       delete_after_save w).1 in
  let records :=
    (quad_writer env (submaps w') (submap_addrs om_addr) delete_after_save []).1 in
  submaps w' !! p = Some None ∧
  (∀ record, record ∈ records → record_coordinates record ≠ Some p) ∧
  (files w' !! filename = files w !! filename ∨
   files w' !! filename = None ∨
   files w' !! filename = Some (FileJson (JArray records))).
Proof.
  intros Hin Habs w' records.
  assert (submaps w' = index_all (submap_addrs om_addr) (submaps w)) as Hsub.
  { unfold w'. rewrite save_quad_eq. cbv zeta.
    destruct (_ && negb _); [done|].
    destruct (write_io env filename), (_ && (_ && _)); done. }
  assert (records = quad_records env (submaps w) (submap_addrs om_addr)) as Hrec.
  { unfold records. rewrite quad_writer_eq, Hsub. cbn [fst].
    apply quad_records_ext, index_all_resident. }
  split; [|split].
  - rewrite Hsub, index_all_lookup. by rewrite bool_decide_eq_true_2.
  - intros record. rewrite Hrec, elem_of_quad_records.
    intros (addr & sm & _ & Hres & ->).
    rewrite record_coordinates_submap_record. intros [= ->].
    apply resident_Some in Hres. congruence.
  - rewrite Hrec. unfold w'. rewrite save_quad_eq. cbv zeta.
    destruct (_ && negb _); [by left|].
    destruct (write_io env filename), (_ && (_ && _)); simpl;
      rewrite ?lookup_delete_eq, ?lookup_insert_eq; auto.
Qed.

(** The uniform skip when every coordinate of the quad is a key of the
    buffer: nothing changes but the eviction list, which receives the
    resident chunks of the quad when the flag is set. *)
Lemma uniform_skip_when_keys_present dirname filename om_addr submaps_to_delete
    delete_after_save (w : world submap) :
  (∀ addr, addr ∈ submap_addrs om_addr → is_Some (submaps w !! addr)) →
  quad_all_uniform (submaps w) (submap_addrs om_addr) = true →
  files w !! filename = None →
  save_quad env dirname filename om_addr submaps_to_delete delete_after_save w =
    (w, if delete_after_save
        then submaps_to_delete ++ resident_addrs (submaps w) (submap_addrs om_addr)
        else submaps_to_delete).
Proof.
  intros Hkeys Hall Hfile. rewrite save_quad_eq. cbv zeta.
  assert (file_exist filename w = false) as ->.
  { unfold file_exist. rewrite Hfile. by apply bool_decide_eq_false_2; intros []. }
  rewrite Hall, andb_false_r. cbn [andb negb].
  assert (index_all (submap_addrs om_addr) (submaps w) = submaps w) as ->.
  { apply map_eq. intros p. rewrite index_all_lookup.
    rewrite bool_decide_eq_false_2; [done|].
    intros [Hin Hnone]. destruct (Hkeys p Hin) as [? Hsome]. congruence. }
  by rewrite set_submaps_id.
Qed.

End save_quad_claims.

(** * Saving the whole buffer *)

Section save_facts.
Context {submap : Type} `{!SubmapOps submap}.
Variable env : environment submap.

Lemma elem_of_cache_keys (m : gmap tripoint (option submap)) (k : tripoint) :
  k ∈ cache_keys m ↔ is_Some (m !! k).
Proof.
  unfold cache_keys. rewrite merge_sort_Permutation, list_elem_of_fmap. split.
  - intros ([k' entry] & -> & Hin). apply elem_of_map_to_list in Hin. eauto.
  - intros [entry Hk]. exists (k, entry). split; [done|]. by apply elem_of_map_to_list.
Qed.

(** The first loop of [save] launches one task per quad that has a key in
    the buffer. *)
Lemma launch_tasks_fold delete_after_save keys (saved : gset tripoint) futures :
  ∃ oms,
    foldl (launch_task env delete_after_save) (saved, futures) keys =
      (list_to_set oms ∪ saved, futures ++ (task_of_quad env delete_after_save <$> oms))
    ∧ (∀ om, om ∈ oms → ∃ k, k ∈ keys ∧ project_to_omt k = om)
    ∧ (∀ k, k ∈ keys → project_to_omt k ∈ oms ∨ project_to_omt k ∈ saved).
Proof.
  revert saved futures. induction keys as [|k keys IH]; intros saved futures.
  - exists []. simpl. rewrite app_nil_r, (left_id_L ∅ (∪)).
    split; [done|]. split; intros ? Hin; inversion Hin.
  - cbn [foldl]. unfold launch_task at 2.
    case_bool_decide as Hseen.
    + destruct (IH saved futures) as (oms & Hfold & Hsrc & Hcov).
      exists oms. split; [done|]. split.
      * intros om Hom. destruct (Hsrc om Hom) as (k' & ? & ?).
        exists k'. split; [by apply list_elem_of_further|done].
      * intros k' [->|Hk']%elem_of_cons; [by right|by apply Hcov].
    + destruct (IH ({[project_to_omt k]} ∪ saved)
                   (futures ++ [task_of_quad env delete_after_save (project_to_omt k)]))
        as (oms & Hfold & Hsrc & Hcov).
      exists (project_to_omt k :: oms). split; [|split].
      * unfold task_of_quad, quad_file in *. rewrite Hfold. f_equal.
        -- cbn [list_to_set].
           by rewrite (comm_L (∪) {[_]} (list_to_set oms)), <-(assoc_L (∪)).
        -- by rewrite <-app_assoc.
      * intros om [->|Hom]%elem_of_cons.
        -- exists k. split; [apply list_elem_of_here|done].
        -- destruct (Hsrc om Hom) as (k' & ? & ?).
           exists k'. split; [by apply list_elem_of_further|done].
      * intros k' [->|Hk']%elem_of_cons; [left; apply list_elem_of_here|].
        destruct (Hcov k' Hk') as [?|Hs]; [left; by apply list_elem_of_further|].
        apply elem_of_union in Hs as [->%elem_of_singleton|?];
          [left; apply list_elem_of_here|by right].
Qed.

Lemma save_tasks_eq delete_after_save (m : gmap tripoint (option submap)) :
  ∃ oms,
    save_tasks env delete_after_save m = task_of_quad env delete_after_save <$> oms
    ∧ (∀ om, om ∈ oms → ∃ k, is_Some (m !! k) ∧ project_to_omt k = om)
    ∧ (∀ k, is_Some (m !! k) → project_to_omt k ∈ oms).
Proof.
  unfold save_tasks.
  destruct (launch_tasks_fold delete_after_save (cache_keys m) ∅ [])
    as (oms & -> & Hsrc & Hcov).
  exists oms. split; [done|]. split.
  - intros om Hom. destruct (Hsrc om Hom) as (k & Hk & ?).
    exists k. by rewrite <-elem_of_cache_keys.
  - intros k Hk. apply elem_of_cache_keys in Hk.
    destruct (Hcov k Hk) as [?|Hs]; [done|]. by apply elem_of_empty in Hs.
Qed.

Lemma run_task_eq (w : world submap) submaps_to_delete (t : save_task) :
  run_task env (w, submaps_to_delete) t =
    let r := save_quad env (task_dirname t) (task_quad_path t) (task_om_addr t) []
                       (task_delete_after_save t || negb (task_inside_reality_bubble t)) w in
    (r.1, submaps_to_delete ++ r.2).
Proof. unfold run_task. by destruct (save_quad _ _ _ _ _ _ _). Qed.

(** *** What [save_quad] touches *)

Lemma save_quad_submaps dirname filename om_addr submaps_to_delete delete_after_save
    (w : world submap) :
  submaps (save_quad env dirname filename om_addr submaps_to_delete delete_after_save w).1
    = index_all (submap_addrs om_addr) (submaps w).
Proof.
  rewrite save_quad_eq. cbv zeta.
  destruct (_ && negb _); [done|].
  by destruct (write_io env filename), (_ && (_ && _)).
Qed.

Lemma save_quad_debug_log dirname filename om_addr submaps_to_delete delete_after_save
    (w : world submap) :
  debug_log (save_quad env dirname filename om_addr submaps_to_delete delete_after_save w).1
    = debug_log w.
Proof.
  rewrite save_quad_eq. cbv zeta.
  destruct (_ && negb _); [done|].
  by destruct (write_io env filename), (_ && (_ && _)).
Qed.

Lemma save_quad_files_other dirname filename om_addr submaps_to_delete delete_after_save
    (w : world submap) (path : cata_path) :
  path ≠ filename →
  files (save_quad env dirname filename om_addr submaps_to_delete delete_after_save w).1
    !! path = files w !! path.
Proof.
  intros Hne. rewrite save_quad_eq. cbv zeta.
  destruct (_ && negb _); [done|].
  destruct (write_io env filename), (_ && (_ && _)); simpl;
    rewrite ?lookup_delete_ne, ?lookup_insert_ne by done; done.
Qed.

(** The addresses [save_quad] queues are addresses of the quad. *)
Lemma save_quad_queue dirname filename om_addr submaps_to_delete delete_after_save
    (w : world submap) :
  ∃ queued,
    (save_quad env dirname filename om_addr submaps_to_delete delete_after_save w).2
      = submaps_to_delete ++ queued
    ∧ ∀ p, p ∈ queued → p ∈ submap_addrs om_addr.
Proof.
  rewrite save_quad_eq. cbv zeta.
  set (queued := resident_addrs (submaps w) (submap_addrs om_addr)).
  assert (∀ p, p ∈ queued → p ∈ submap_addrs om_addr) as Hq
    by (intros p Hp; by apply elem_of_resident_addrs in Hp as [? _]).
  assert (∀ p, p ∈ queued ++ queued → p ∈ submap_addrs om_addr) as Hqq
    by (intros p [?|?]%elem_of_app; auto).
  assert (∀ p : tripoint, p ∈ [] → p ∈ submap_addrs om_addr) as Hnil
    by (intros p Hp; inversion Hp).
  destruct (quad_all_uniform _ _), delete_after_save, (_ && file_exist _ _);
    cbn [andb negb snd]; try destruct (write_io env filename); cbn [snd];
    rewrite <-?app_assoc;
    first [ by exists (queued ++ queued) | by exists queued
          | exists []; by rewrite app_nil_r ].
Qed.

Lemma project_to_omt_submap_addrs (om_addr p : tripoint) :
  p ∈ submap_addrs om_addr → project_to_omt p = om_addr.
Proof.
  unfold submap_addrs, offsets. rewrite !fmap_cons, fmap_nil. intros Hin.
  destruct om_addr as [x y z].
  repeat (apply elem_of_cons in Hin as [->|Hin]); [..|by apply elem_of_nil in Hin];
    unfold project_to_omt, tripoint_add, project_to_sm; cbn; f_equal;
    Z.div_mod_to_equations; lia.
Qed.

(** Every submap lies in the quad it projects to. *)
Lemma submap_addrs_project_to_omt (p : tripoint) :
  p ∈ submap_addrs (project_to_omt p).
Proof.
  unfold submap_addrs, offsets. rewrite !fmap_cons, fmap_nil.
  destruct p as [x y z]. unfold project_to_omt, tripoint_add, project_to_sm. cbn.
  pose proof (Z.div_mod x 2 ltac:(lia)) as Hx. pose proof (Z.mod_pos_bound x 2 ltac:(lia)).
  pose proof (Z.div_mod y 2 ltac:(lia)) as Hy. pose proof (Z.mod_pos_bound y 2 ltac:(lia)).
  assert (x `mod` 2 = 0 ∨ x `mod` 2 = 1) as [Hx0|Hx1] by lia;
  assert (y `mod` 2 = 0 ∨ y `mod` 2 = 1) as [Hy0|Hy1] by lia.
  - replace (mk_tripoint x y z) with
      (mk_tripoint (2 * (x `div` 2) + 0) (2 * (y `div` 2) + 0) z) at 1 by (f_equal; lia).
    apply list_elem_of_here.
  - replace (mk_tripoint x y z) with
      (mk_tripoint (2 * (x `div` 2) + 0) (2 * (y `div` 2) + 1) z) at 1 by (f_equal; lia).
    apply list_elem_of_further, list_elem_of_here.
  - replace (mk_tripoint x y z) with
      (mk_tripoint (2 * (x `div` 2) + 1) (2 * (y `div` 2) + 0) z) at 1 by (f_equal; lia).
    do 2 apply list_elem_of_further. apply list_elem_of_here.
  - replace (mk_tripoint x y z) with
      (mk_tripoint (2 * (x `div` 2) + 1) (2 * (y `div` 2) + 1) z) at 1 by (f_equal; lia).
    do 3 apply list_elem_of_further. apply list_elem_of_here.
Qed.

(** *** The eviction loop *)

Lemma remove_all_files (l : list tripoint) (w : world submap) :
  files (foldl (λ w elem, remove_submap elem w) w l) = files w.
Proof.
  revert w. induction l as [|a l IH]; intros w; [done|].
  cbn [foldl]. rewrite IH. unfold remove_submap. by destruct (submaps w !! a).
Qed.

Lemma remove_all_submaps (l : list tripoint) (w : world submap) (p : tripoint) :
  submaps (foldl (λ w elem, remove_submap elem w) w l) !! p =
    if bool_decide (p ∈ l) then None else submaps w !! p.
Proof.
  revert w. induction l as [|a l IH]; intros w.
  - rewrite bool_decide_eq_false_2; [done|]. intros Hin. inversion Hin.
  - cbn [foldl]. rewrite IH.
    assert (submaps (remove_submap a w) !! p
            = if bool_decide (p = a) then None else submaps w !! p) as Hstep.
    { unfold remove_submap. destruct (decide (p = a)) as [->|Hpa].
      - rewrite bool_decide_eq_true_2 by done.
        destruct (submaps w !! a) eqn:Ha; simpl; [apply lookup_delete_eq|done].
      - rewrite bool_decide_eq_false_2 by done.
        destruct (submaps w !! a); simpl; [by apply lookup_delete_ne|done]. }
    rewrite Hstep. destruct (decide (p = a)) as [->|Hne].
    + rewrite (bool_decide_eq_true_2 (a ∈ a :: l)) by apply list_elem_of_here.
      rewrite (bool_decide_eq_true_2 (a = a)) by done. by destruct (bool_decide (a ∈ l)).
    + rewrite (bool_decide_eq_false_2 (p = a)) by done.
      apply (f_equal (λ b : bool, if b then None else submaps w !! p)).
      apply bool_decide_ext. rewrite elem_of_cons. tauto.
Qed.

End save_facts.

(** * One write that fails, against the same write committing *)

Section save_isolation.
Context {submap : Type} `{!SubmapOps submap}.
Variable env : environment submap.
Variable q : cata_path.

Lemma save_quad_commit_at_other dirname filename om_addr
    submaps_to_delete delete_after_save (w : world submap) :
  filename ≠ q →
  save_quad (with_commit_at q env) dirname filename om_addr submaps_to_delete
            delete_after_save w
  = save_quad env dirname filename om_addr submaps_to_delete delete_after_save w.
Proof.
  intros Hne. rewrite !save_quad_eq. cbv zeta.
  replace (write_io (with_commit_at q env) filename) with (write_io env filename); [done|].
  unfold with_commit_at, with_write_io. cbn. by rewrite bool_decide_eq_false_2.
Qed.

(** Two worlds with the same buffer whose files agree away from [q]: the
    save of a quad whose file is not [q] keeps them so and queues the same
    addresses. *)
Lemma save_quad_agree dirname filename om_addr delete_after_save
    (w1 w2 : world submap) :
  filename ≠ q →
  submaps w1 = submaps w2 →
  (∀ path, path ≠ q → files w1 !! path = files w2 !! path) →
  (∀ path, path ≠ q →
     files (save_quad env dirname filename om_addr [] delete_after_save w1).1 !! path
     = files (save_quad env dirname filename om_addr [] delete_after_save w2).1 !! path) ∧
  (save_quad env dirname filename om_addr [] delete_after_save w1).2
  = (save_quad env dirname filename om_addr [] delete_after_save w2).2.
Proof.
  intros Hfq Hsub Hfiles. rewrite !save_quad_eq. cbv zeta.
  assert (file_exist filename w1 = file_exist filename w2) as ->
    by (unfold file_exist; by rewrite Hfiles).
  rewrite Hsub.
  destruct (_ && negb _); [done|].
  destruct (write_io env filename), (_ && (_ && _)); cbn [fst snd]; (split; [|done]);
    intros path Hpq; cbn;
    destruct (decide (path = filename)) as [->|Hpf];
    rewrite ?lookup_delete_eq, ?lookup_insert_eq,
            ?lookup_delete_ne, ?lookup_insert_ne by done; auto.
Qed.

Lemma filter_off_file_nil (om_addr : tripoint) (l : list tripoint) :
  quad_file env om_addr = q →
  (∀ p, p ∈ l → p ∈ submap_addrs om_addr) →
  filter (λ p, submap_file env p ≠ q) l = [].
Proof.
  intros Hq Hl. induction l as [|a l IH]; [done|].
  rewrite filter_cons_False.
  - apply IH. intros p Hp. by apply Hl, list_elem_of_further.
  - intros Hne. apply Hne. unfold submap_file.
    rewrite (project_to_omt_submap_addrs om_addr a); [done|]. apply Hl, list_elem_of_here.
Qed.

(** The tasks of [save] run against a failing write of [q] and against the
    same write committing. *)
Lemma run_tasks_isolated delete_after_save (oms : list tripoint)
    (w1 w2 : world submap) (l1 l2 : list tripoint) :
  submaps w1 = submaps w2 →
  (∀ path, path ≠ q → files w1 !! path = files w2 !! path) →
  filter (λ p, submap_file env p ≠ q) l1 = filter (λ p, submap_file env p ≠ q) l2 →
  submaps (foldl (run_task env) (w1, l1) (task_of_quad env delete_after_save <$> oms)).1
  = submaps (foldl (run_task (with_commit_at q env)) (w2, l2)
                   (task_of_quad env delete_after_save <$> oms)).1 ∧
  (∀ path, path ≠ q →
     files (foldl (run_task env) (w1, l1)
                  (task_of_quad env delete_after_save <$> oms)).1 !! path
     = files (foldl (run_task (with_commit_at q env)) (w2, l2)
                    (task_of_quad env delete_after_save <$> oms)).1 !! path) ∧
  filter (λ p, submap_file env p ≠ q)
         (foldl (run_task env) (w1, l1) (task_of_quad env delete_after_save <$> oms)).2
  = filter (λ p, submap_file env p ≠ q)
           (foldl (run_task (with_commit_at q env)) (w2, l2)
                  (task_of_quad env delete_after_save <$> oms)).2.
Proof.
  revert w1 w2 l1 l2. induction oms as [|om oms IH]; intros w1 w2 l1 l2 Hsub Hfiles Hl.
  - done.
  - cbn [fmap list_fmap foldl]. rewrite !run_task_eq. cbv zeta.
    cbn [task_of_quad task_dirname task_quad_path task_om_addr
         task_delete_after_save task_inside_reality_bubble].
    set (flag := delete_after_save || negb (inbounds env om)).
    set (dirname := find_dirname (world_base_save_path env) om).
    apply IH.
    + rewrite !save_quad_submaps. by rewrite Hsub.
    + destruct (decide (quad_file env om = q)) as [Hq|Hq].
      * intros path Hpq. rewrite !save_quad_files_other by congruence. auto.
      * rewrite save_quad_commit_at_other by done.
        by apply save_quad_agree.
    + rewrite !filter_app. f_equal; [done|].
      destruct (decide (quad_file env om = q)) as [Hq|Hq].
      * destruct (save_quad_queue env dirname (quad_file env om) om [] flag w1)
          as (queued1 & -> & Hq1).
        destruct (save_quad_queue (with_commit_at q env) dirname (quad_file env om)
                                  om [] flag w2) as (queued2 & -> & Hq2).
        cbn [app]. by rewrite !(filter_off_file_nil om).
      * rewrite save_quad_commit_at_other by done.
        f_equal. by apply save_quad_agree.
Qed.

Lemma save_unfold (e : environment submap) delete_after_save (w : world submap) :
  save e delete_after_save w =
    let w0 := assure_dir_exist (world_base_save_path e +:+ "/maps") w in
    let r := foldl (run_task e) (w0, []) (save_tasks e delete_after_save (submaps w0)) in
    foldl (λ w elem, remove_submap elem w) r.1 r.2.
Proof. unfold save. cbv zeta. by destruct (foldl _ _ _). Qed.

(** [save] with the write of [q] failing, against [save] with that write
    committing: every other file and every submap of a quad with another file
    end the same. *)
Lemma save_isolated_off_file delete_after_save (w : world submap) :
  (∀ path, path ≠ q →
     files (save env delete_after_save w) !! path
     = files (save (with_commit_at q env) delete_after_save w) !! path) ∧
  (∀ p, submap_file env p ≠ q →
     submaps (save env delete_after_save w) !! p
     = submaps (save (with_commit_at q env) delete_after_save w) !! p).
Proof.
  rewrite !save_unfold. cbv zeta.
  change (world_base_save_path (with_commit_at q env)) with (world_base_save_path env).
  set (w0 := assure_dir_exist (world_base_save_path env +:+ "/maps") w).
  change (save_tasks (with_commit_at q env) delete_after_save (submaps w0))
    with (save_tasks env delete_after_save (submaps w0)).
  destruct (save_tasks_eq env delete_after_save (submaps w0)) as (oms & -> & _ & _).
  destruct (run_tasks_isolated delete_after_save oms w0 w0 [] [])
    as (Hsub & Hfiles & Hl); [done..|].
  split.
  - intros path Hpq. rewrite !remove_all_files. by apply Hfiles.
  - intros p Hp. rewrite !remove_all_submaps, Hsub.
    apply (f_equal (λ b : bool, if b then None else _)).
    apply bool_decide_ext.
    pose proof (list_elem_of_filter (λ p, submap_file env p ≠ q)) as Hfilter.
    split; intros Hin.
    + eapply Hfilter. rewrite <-Hl. by apply Hfilter.
    + eapply Hfilter. rewrite Hl. by apply Hfilter.
Qed.

End save_isolation.

Section save_failure.
Context {submap : Type} `{!SubmapOps submap}.
Variable env : environment submap.

(** *** The tombstone through [save] *)

Lemma quad_flags_preserved (addrs addrs' : list tripoint)
    (m : gmap tripoint (option submap)) :
  quad_all_uniform (index_all addrs' m) addrs = quad_all_uniform m addrs ∧
  quad_has_reverted (index_all addrs' m) addrs = quad_has_reverted m addrs.
Proof.
  unfold quad_all_uniform, quad_has_reverted.
  induction addrs as [|a addrs [IH1 IH2]]; [done|].
  cbn [forallb existsb]. by rewrite IH1, IH2, index_all_resident.
Qed.

Lemma run_tasks_tombstone (tomb : tripoint) delete_after_save (oms : list tripoint)
    (w : world submap) (l : list tripoint) :
  quad_all_uniform (submaps w) (submap_addrs tomb) = true →
  quad_has_reverted (submaps w) (submap_addrs tomb) = true →
  tomb ∈ oms ∨ files w !! quad_file env tomb = None →
  files (foldl (run_task env) (w, l) (task_of_quad env delete_after_save <$> oms)).1
    !! quad_file env tomb = None.
Proof.
  revert w l. induction oms as [|om oms IH]; intros w l Hall Hrev Hcase.
  - destruct Hcase as [Hin|Hnone]; [inversion Hin|done].
  - cbn [fmap list_fmap foldl]. rewrite run_task_eq. cbv zeta.
    cbn [task_of_quad task_dirname task_quad_path task_om_addr
         task_delete_after_save task_inside_reality_bubble].
    apply IH.
    + rewrite save_quad_submaps. by rewrite (proj1 (quad_flags_preserved _ _ _)).
    + rewrite save_quad_submaps. by rewrite (proj2 (quad_flags_preserved _ _ _)).
    + destruct (decide (om = tomb)) as [->|Hne].
      * right. destruct (file_exist (quad_file env tomb) w) eqn:Hfile.
        -- by apply save_quad_tombstone.
        -- rewrite save_quad_eq. cbv zeta. rewrite Hall, Hfile, andb_false_r.
           cbn [andb negb fst set_submaps files]. unfold file_exist in Hfile.
           apply bool_decide_eq_false_1 in Hfile.
           destruct (files w !! quad_file env tomb) eqn:Hf; [|done].
           exfalso. apply Hfile. eauto.
      * destruct Hcase as [Hin|Hnone].
        -- left. by apply elem_of_cons in Hin as [->|Hin].
        -- right. rewrite save_quad_files_other; [done|].
           intros Heq. by apply quad_file_inj in Heq.
Qed.

(** The tombstone case through [save]: the file of a quad whose four
    submaps are resident and uniform, one of them reverted, is gone after
    the whole buffer was saved. *)
Lemma save_tombstone (tomb : tripoint) delete_after_save (w : world submap) :
  (∀ addr, addr ∈ submap_addrs tomb →
     ∃ sm, submaps w !! addr = Some (Some sm) ∧ is_uniform sm = true) →
  (∃ addr sm, addr ∈ submap_addrs tomb ∧ submaps w !! addr = Some (Some sm)
              ∧ reverted sm = true) →
  files (save env delete_after_save w) !! quad_file env tomb = None.
Proof.
  intros Hall (addr & sm & Hin & Hsm & Hrev).
  rewrite save_unfold. cbv zeta. rewrite remove_all_files.
  set (w0 := assure_dir_exist (world_base_save_path env +:+ "/maps") w).
  destruct (save_tasks_eq env delete_after_save (submaps w0)) as (oms & -> & _ & Hcov).
  apply run_tasks_tombstone.
  - apply quad_all_uniform_true. intros a s Ha Hs.
    destruct (Hall a Ha) as (s' & Hs' & Hu). apply resident_Some in Hs.
    cbn in Hs. congruence.
  - apply quad_has_reverted_true. exists addr, sm.
    destruct (Hall addr Hin) as (s' & Hs' & Hu).
    assert (s' = sm) as -> by congruence.
    by rewrite resident_Some.
  - left. rewrite <-(project_to_omt_submap_addrs tomb addr Hin).
    apply Hcov. cbn. eauto.
Qed.

(** *** The shared eviction list only grows *)

Lemma run_tasks_keep_queue (tasks : list save_task) (w : world submap)
    (l : list tripoint) (p : tripoint) :
  p ∈ l → p ∈ (foldl (run_task env) (w, l) tasks).2.
Proof.
  revert w l. induction tasks as [|t tasks IH]; intros w l Hin; [done|].
  cbn [foldl]. rewrite run_task_eq. cbv zeta. apply IH.
  apply elem_of_app. by left.
Qed.

End save_failure.

(** * Loading *)

Section json_facts.

Lemma json_member_None (name : string) (obj : JsonMembers) :
  json_member name obj = None ↔ name ∉ obj.*1.
Proof.
  induction obj as [|[n v] obj IH]; simpl.
  - split; [intros _ Hin; inversion Hin|done].
  - rewrite not_elem_of_cons. case_decide as Hn.
    + split; [done|]. intros [Hne _]. by destruct Hne.
    + rewrite IH. split; [by split; [intros ->|]|by intros [_ ?]].
Qed.

Lemma json_member_app (name : string) (pre post : JsonMembers) (v : JsonValue) :
  name ∉ pre.*1 → json_member name (pre ++ (name, v) :: post) = Some v.
Proof.
  induction pre as [|[n v'] pre IH]; simpl; intros Hpre.
  - by rewrite decide_True.
  - apply not_elem_of_cons in Hpre as [Hne Hpre]. rewrite decide_False by done. auto.
Qed.

Lemma read_version_member (obj : JsonMembers) (v : Z) :
  json_member "version" obj = Some (JInt v) → read_version obj = Ret v.
Proof. intros Hv. unfold read_version, json_has_int, json_get_int. by rewrite Hv. Qed.

Lemma read_version_missing (obj : JsonMembers) :
  json_member "version" obj = None → read_version obj = Ret 0.
Proof. intros Hv. unfold read_version, json_has_int. by rewrite Hv. Qed.

(** The version never fails to be read: a member that is not an integer
    leaves the default. *)
Lemma read_version_total (obj : JsonMembers) : ∃ v, read_version obj = Ret v.
Proof.
  unfold read_version, json_has_int, json_get_int.
  destruct (json_member "version" obj) as [[]|]; eauto.
Qed.

Lemma json_member_Some_NoDup (name : string) (obj : JsonMembers) (v : JsonValue) :
  NoDup obj.*1 → json_member name obj = Some v ↔ (name, v) ∈ obj.
Proof.
  induction obj as [|[n v'] obj IH]; simpl; intros Hnd.
  - split; [done|]. intros Hin. inversion Hin.
  - apply NoDup_cons in Hnd as [Hn Hnd]. rewrite elem_of_cons. case_decide as Hname.
    + subst n. split; [intros [= ->]; by left|].
      intros [[= ->]|Hin]; [done|].
      exfalso. apply Hn. apply list_elem_of_fmap. by exists (name, v).
    + rewrite (IH Hnd). split; [by right|].
      intros [[= -> _]|Hin]; [done|done].
Qed.

(** The member a name refers to does not depend on the order of the
    members. *)
Lemma json_member_Permutation (name : string) (obj obj' : JsonMembers) :
  NoDup obj.*1 → obj ≡ₚ obj' → json_member name obj = json_member name obj'.
Proof.
  intros Hnd Hperm.
  assert (NoDup obj'.*1) as Hnd' by (by rewrite <-Hperm).
  destruct (json_member name obj) as [v|] eqn:Hm.
  - symmetry. apply json_member_Some_NoDup; [done|]. rewrite <-Hperm.
    by apply json_member_Some_NoDup.
  - symmetry. apply json_member_None. rewrite <-Hperm. by apply json_member_None.
Qed.

Lemma read_version_Permutation (obj obj' : JsonMembers) :
  NoDup obj.*1 → obj ≡ₚ obj' → read_version obj = read_version obj'.
Proof.
  intros Hnd Hperm. unfold read_version, json_has_int, json_get_int.
  by rewrite (json_member_Permutation _ obj obj').
Qed.

End json_facts.

Section decode_facts.
Context {submap : Type} `{!SubmapOps submap}.

(** Wherever the version member sits in the record, the loop over the
    members runs with its value. *)
Lemma decode_record_version (pre post : JsonMembers) (v : Z) :
  "version" ∉ pre.*1 →
  decode_record (pre ++ ("version", JInt v) :: post) =
    load_members v (pre ++ ("version", JInt v) :: post) (submap_new, tripoint_default).
Proof.
  intros Hpre. unfold decode_record.
  by rewrite (read_version_member _ v) by by apply json_member_app.
Qed.

Lemma decode_record_no_version (obj : JsonMembers) :
  "version" ∉ obj.*1 →
  decode_record obj = load_members 0 obj (submap_new, tripoint_default).
Proof.
  intros Hobj. unfold decode_record.
  by rewrite read_version_missing by by apply json_member_None.
Qed.

(** For every chunk implementation, the loop over the members of a record
    is the sequence of [load] calls on the members other than the
    coordinates, in file order, all with the version the loop runs with. *)
Lemma load_members_replay (version : Z) (obj : JsonMembers) (sm : submap) (p : tripoint) :
  (∀ val, ("coordinates", val) ∈ obj → ∃ q, read_coordinates val = Ret q) →
  ∃ p',
    load_members version obj (sm, p) =
      (sm ← replay_loads ((λ m, (m.1, m.2, version))
                            <$> filter (λ m, m.1 ≠ "coordinates") obj) sm;
       mret (sm, p')).
Proof.
  revert sm p. induction obj as [|[name val] obj IH]; intros sm p Hcoords.
  - by exists p.
  - cbn [load_members]. unfold load_member. cbn [fst snd].
    rewrite filter_cons. cbn [fst].
    assert (∀ val, ("coordinates", val) ∈ obj → ∃ q, read_coordinates val = Ret q)
      as Hrest by (intros ??; apply Hcoords; by apply list_elem_of_further).
    case_bool_decide as Hname.
    + subst name. destruct (Hcoords val) as [q Hq]; [apply list_elem_of_here|].
      rewrite decide_False by (by intros ?). rewrite Hq. csimpl.
      apply IH, Hrest.
    + rewrite decide_True by done. csimpl.
      destruct (load sm val name version) as [sm1|what] eqn:Hload; csimpl.
      * apply IH, Hrest.
      * by exists p.
Qed.

(** For every chunk implementation: the record is decoded by the [load]
    calls on its members other than the coordinates, all with the value of
    the version member, wherever that member sits. *)
Lemma decode_record_replay (pre post : JsonMembers) (v : Z) :
  "version" ∉ pre.*1 →
  (∀ val, ("coordinates", val) ∈ pre ++ ("version", JInt v) :: post →
     ∃ q, read_coordinates val = Ret q) →
  ∃ p',
    decode_record (pre ++ ("version", JInt v) :: post) =
      (sm ← replay_loads ((λ m, (m.1, m.2, v))
                            <$> filter (λ m, m.1 ≠ "coordinates")
                                       (pre ++ ("version", JInt v) :: post)) submap_new;
       mret (sm, p')).
Proof.
  intros Hpre Hcoords. rewrite decode_record_version by done.
  by apply load_members_replay.
Qed.

End decode_facts.

(** What the recording chunk holds after the loop over the members of a
    record: one entry per member other than the coordinates, in file
    order, each with the version the loop ran with. *)
Lemma load_members_recording (version : Z) (obj : JsonMembers)
    (c : Recording.chunk) (p : tripoint) :
  (∀ val, ("coordinates", val) ∈ obj → ∃ q, read_coordinates val = Ret q) →
  ∃ c' p',
    load_members version obj (c, p) = Ret (c', p') ∧
    Recording.chunk_decoded c' =
      Recording.chunk_decoded c
        ++ ((λ m, (m.1, m.2, version)) <$> filter (λ m, m.1 ≠ "coordinates") obj).
Proof.
  revert c p. induction obj as [|[name val] obj IH]; intros c p Hcoords.
  - exists c, p. split; [done|]. by rewrite app_nil_r.
  - cbn [load_members]. unfold load_member. cbn [fst snd].
    rewrite filter_cons. cbn [fst].
    assert (∀ val, ("coordinates", val) ∈ obj → ∃ q, read_coordinates val = Ret q)
      as Hrest by (intros ??; apply Hcoords; by apply list_elem_of_further).
    case_bool_decide as Hname.
    + subst name. destruct (Hcoords val) as [q Hq]; [apply list_elem_of_here|].
      rewrite decide_False by (by intros ?). rewrite Hq. csimpl.
      apply IH, Hrest.
    + rewrite decide_True by done. unfold load. csimpl.
      edestruct IH as (c' & p' & Hload & Hdec); [exact Hrest|].
      exists c', p'. split; [exact Hload|]. rewrite Hdec. cbn [Recording.chunk_decoded].
      by rewrite <-app_assoc.
Qed.

(** C8.  The version is read first: wherever the version member sits among
    the members of a record, the record is decoded, and every member other
    than the coordinates, those in front of the version member included, is
    handed to the chunk's [load] with the value of the version member. *)
Theorem version_read_first (pre post : JsonMembers) (v : Z) :
  "version" ∉ pre.*1 →
  (∀ val, ("coordinates", val) ∈ pre ++ ("version", JInt v) :: post →
     ∃ q, read_coordinates val = Ret q) →
  ∃ (sm : Recording.chunk) (coords : tripoint),
    decode_record (pre ++ ("version", JInt v) :: post) = Ret (sm, coords) ∧
    Recording.chunk_decoded sm =
      (λ m, (m.1, m.2, v))
        <$> filter (λ m, m.1 ≠ "coordinates") (pre ++ ("version", JInt v) :: post).
Proof.
  intros Hpre Hcoords. rewrite decode_record_version by done.
  exact (load_members_recording v _ submap_new tripoint_default Hcoords).
Qed.

(** C10.  A record without a version member is not an error: it is decoded
    with the version at its default 0, and every member other than the
    coordinates is handed to the chunk's [load] with version 0. *)
Theorem missing_version_defaults_to_zero (obj : JsonMembers) :
  "version" ∉ obj.*1 →
  (∀ val, ("coordinates", val) ∈ obj → ∃ q, read_coordinates val = Ret q) →
  read_version obj = Ret 0 ∧
  ∃ (sm : Recording.chunk) (coords : tripoint),
    decode_record obj = Ret (sm, coords) ∧
    Recording.chunk_decoded sm =
      (λ m, (m.1, m.2, 0)) <$> filter (λ m, m.1 ≠ "coordinates") obj.
Proof.
  intros Hobj Hcoords. split.
  - by apply read_version_missing, json_member_None.
  - rewrite decode_record_no_version by done.
    exact (load_members_recording 0 _ submap_new tripoint_default Hcoords).
Qed.

Section load_claims.
Context {submap : Type} `{!SubmapOps submap}.
Variable env : environment submap.

(** [unserialize_submaps] is the read of the resolved path and what follows
    it. *)
Lemma unserialize_submaps_eq (p : tripoint) (w : world submap) :
  unserialize_submaps env p w =
    unserialize_from env
      (resolve_quad_path env (find_dirname (world_base_save_path env) (project_to_omt p))
                         (project_to_omt p) w)
      p (project_to_omt p) w.
Proof. done. Qed.

(** After the read reported data and the uniform submaps were filled in,
    the result is decided by the presence of [p] alone. *)
Lemma unserialize_from_loaded quad_path (p om_addr : tripoint) (w w1 : world submap) :
  read_from_file_optional_json quad_path deserialize w = (Ret true, w1) →
  let oid := overmap_ter env om_addr in
  let w2 := set_submaps
              (generate_uniform_omt env (project_to_sm om_addr) oid (submaps w1)) w1 in
  unserialize_from env quad_path p om_addr w =
    match submaps w2 !! p with
    | Some entry => (Ret entry, w2)
    | None => (Ret None, debugmsg (MsgMissingSubmap quad_path p oid) w2)
    end.
Proof.
  intros Hread oid w2. unfold unserialize_from.
  unfold mbind, exn_state_bind at 1. rewrite Hread. cbn [negb].
  unfold mbind, exn_state_bind, modify, gets, mret, exn_state_ret. fold oid. fold w2.
  destruct (submaps w2 !! p) as [entry|] eqn:Hp.
  - rewrite bool_decide_eq_true_2 by eauto. cbn [negb].
    rewrite (submaps_index_present _ _ _ Hp). by rewrite set_submaps_id.
  - rewrite bool_decide_eq_false_2 by (by intros []). done.
Qed.

(** C6.  After the quad file was read and the uniform submaps were filled
    in, either [p] is resident and the load returns its entry, or the load
    reports the missing submap (with the file, [p] and the terrain) and
    returns null; in both cases it returns.  At the boundary,
    [lookup_submap] never lets an exception out. *)
Theorem load_integrity (p : tripoint) (w w1 : world submap) :
  let om_addr := project_to_omt p in
  let quad_path :=
    resolve_quad_path env (find_dirname (world_base_save_path env) om_addr) om_addr w in
  let oid := overmap_ter env om_addr in
  let w2 := set_submaps
              (generate_uniform_omt env (project_to_sm om_addr) oid (submaps w1)) w1 in
  read_from_file_optional_json quad_path deserialize w = (Ret true, w1) →
  ((∃ entry, submaps w2 !! p = Some entry ∧
             unserialize_submaps env p w = (Ret entry, w2)) ∨
   (submaps w2 !! p = None ∧
    unserialize_submaps env p w =
      (Ret None, debugmsg (MsgMissingSubmap quad_path p oid) w2))) ∧
  (∃ result w', lookup_submap env p w = (Ret result, w')).
Proof.
  intros om_addr quad_path oid w2 Hread.
  pose proof (unserialize_from_loaded quad_path p om_addr w w1 Hread) as Hfrom.
  cbv zeta in Hfrom. fold oid in Hfrom. fold w2 in Hfrom.
  rewrite unserialize_submaps_eq. fold om_addr. fold quad_path. rewrite Hfrom.
  split.
  - destruct (submaps w2 !! p) as [entry|]; [left; eauto|right; eauto].
  - unfold lookup_submap, mbind, exn_state_bind, gets.
    destruct (submaps w !! p) as [entry|]; [by eexists _, _|].
    unfold try_catch. rewrite unserialize_submaps_eq.
    fold om_addr. fold quad_path. rewrite Hfrom.
    destruct (submaps w2 !! p); by eexists _, _.
Qed.

(** *** The loader stores no null pointer *)

Lemma deserialize_submap_null (submap_json : JsonMembers) (w : world submap)
    (k : tripoint) :
  submaps (deserialize_submap submap_json w).2 !! k = Some None →
  submaps w !! k = Some None.
Proof.
  unfold deserialize_submap, mbind, exn_state_bind, lift_outcome, gets, modify.
  destruct (decode_record submap_json) as [[sm coords]|what]; [|done].
  unfold add_submap. case_bool_decide as Hkey; cbn; [done|].
  destruct (decide (k = coords)) as [->|Hne].
  - by rewrite lookup_insert_eq.
  - by rewrite lookup_insert_ne.
Qed.

Lemma deserialize_records_null (ja : list JsonValue) (w : world submap) (k : tripoint) :
  submaps (deserialize_records ja w).2 !! k = Some None → submaps w !! k = Some None.
Proof.
  revert w. induction ja as [|record ja IH]; intros w; [done|].
  destruct record; try done. cbn [deserialize_records].
  unfold mbind, exn_state_bind.
  destruct (deserialize_submap members w) as [[[]|what] w1] eqn:Hsub.
  - intros Hk%IH. apply (deserialize_submap_null members). by rewrite Hsub.
  - intros Hk. apply (deserialize_submap_null members). by rewrite Hsub.
Qed.

Lemma read_quad_file_null (path : cata_path) (w : world submap) (k : tripoint) :
  submaps (read_from_file_optional_json path deserialize w).2 !! k = Some None →
  submaps w !! k = Some None.
Proof.
  unfold read_from_file_optional_json.
  destruct (files w !! path) as [[jsin|]|]; [|done..].
  destruct jsin as [| | | |items|]; try done. cbn [deserialize].
  destruct (deserialize_records items w) as [[[]|what] w1] eqn:Hde; cbn;
    intros Hk; apply (deserialize_records_null items); by rewrite Hde.
Qed.

(** When [p] is not a key before the load, as [lookup_submap] ensures, and
    the synthesis of uniform submaps stores no null pointer at [p], a load
    that finds [p] resident returns a chunk. *)
Lemma load_integrity_chunk (p : tripoint) (w w1 : world submap) :
  let om_addr := project_to_omt p in
  let quad_path :=
    resolve_quad_path env (find_dirname (world_base_save_path env) om_addr) om_addr w in
  let oid := overmap_ter env om_addr in
  let m2 := generate_uniform_omt env (project_to_sm om_addr) oid (submaps w1) in
  submaps w !! p = None →
  read_from_file_optional_json quad_path deserialize w = (Ret true, w1) →
  (m2 !! p = Some None → submaps w1 !! p = Some None) →
  (∃ sm, m2 !! p = Some (Some sm) ∧
         unserialize_submaps env p w = (Ret (Some sm), set_submaps m2 w1)) ∨
  (m2 !! p = None ∧
   unserialize_submaps env p w =
     (Ret None, debugmsg (MsgMissingSubmap quad_path p oid) (set_submaps m2 w1))).
Proof.
  intros om_addr quad_path oid m2 Hfresh Hread Hsynth.
  pose proof (unserialize_from_loaded quad_path p om_addr w w1 Hread) as Hfrom.
  cbv zeta in Hfrom. fold oid in Hfrom. fold m2 in Hfrom.
  rewrite unserialize_submaps_eq. fold om_addr. fold quad_path. rewrite Hfrom.
  cbn [submaps set_submaps].
  destruct (m2 !! p) as [[sm|]|] eqn:Hp; [left; eauto| |right; eauto].
  exfalso. specialize (Hsynth eq_refl).
  pose proof (read_quad_file_null quad_path w p) as Hnull.
  rewrite Hread in Hnull. specialize (Hnull Hsynth). congruence.
Qed.

(** [lookup_submap] and [submap_exists] return in every world. *)
Lemma lookup_submap_returns (p : tripoint) (w : world submap) :
  ∃ result w', lookup_submap env p w = (Ret result, w').
Proof.
  unfold lookup_submap, mbind, exn_state_bind, gets.
  destruct (submaps w !! p) as [entry|]; [by eexists _, _|].
  unfold try_catch. destruct (unserialize_submaps env p w) as [[result|what] w'].
  - by eexists _, _.
  - unfold modify, mret, exn_state_ret. by eexists _, _.
Qed.

Lemma submap_exists_returns (p : tripoint) (w : world submap) :
  ∃ result w', submap_exists env p w = (Ret result, w').
Proof.
  unfold submap_exists, mbind, exn_state_bind, gets.
  destruct (submaps w !! p) as [entry|]; [by eexists _, _|].
  unfold try_catch. destruct (unserialize_submaps env p w) as [[result|what] w'].
  - unfold mret, exn_state_ret. by eexists _, _.
  - unfold modify, mret, exn_state_ret. by eexists _, _.
Qed.

(** A file that holds JSON the loader gets through is data. *)
Lemma read_quad_file_loaded (path : cata_path) (jsin : JsonValue) (w w1 : world submap) :
  files w !! path = Some (FileJson jsin) →
  deserialize jsin w = (Ret tt, w1) →
  read_from_file_optional_json path deserialize w = (Ret true, w1).
Proof.
  intros Hfile Hload. unfold read_from_file_optional_json. by rewrite Hfile, Hload.
Qed.

(** C7.  The quad file under the legacy name is read when, and only when,
    no file exists under the canonical name.  When the file exists only
    under the legacy name, its records are loaded: what
    [unserialize_submaps] returns and leaves behind is what [deserialize]
    makes of the legacy file, followed by the synthesis of the uniform
    submaps and the check for the submap asked for; a complaint about a
    missing submap names the legacy path.  When the canonical file exists
    it is the one that is loaded, whatever exists under the legacy name.
    When neither exists nothing is loaded and nothing changes. *)
Theorem legacy_fallback (p : tripoint) (w : world submap) :
  let om_addr := project_to_omt p in
  let dirname := find_dirname (world_base_save_path env) om_addr in
  let quad_path := find_quad_path dirname om_addr in
  let legacy_quad_path := path_join dirname (legacy_quad_name env om_addr) in
  let oid := overmap_ter env om_addr in
  let filled (w1 : world submap) :=
    set_submaps (generate_uniform_omt env (project_to_sm om_addr) oid (submaps w1)) w1 in
  let loaded_from (path : cata_path) (w1 : world submap) :=
    match submaps (filled w1) !! p with
    | Some entry => (Ret entry, filled w1)
    | None => (Ret None, debugmsg (MsgMissingSubmap path p oid) (filled w1))
    end in
  (files w !! quad_path = None →
   ∀ jsin w1,
     files w !! legacy_quad_path = Some (FileJson jsin) →
     deserialize jsin w = (Ret tt, w1) →
     unserialize_submaps env p w = loaded_from legacy_quad_path w1) ∧
  (∀ jsin w1,
     files w !! quad_path = Some (FileJson jsin) →
     deserialize jsin w = (Ret tt, w1) →
     unserialize_submaps env p w = loaded_from quad_path w1) ∧
  (is_Some (files w !! quad_path) →
     unserialize_submaps env p w = unserialize_from env quad_path p om_addr w) ∧
  (files w !! quad_path = None → files w !! legacy_quad_path = None →
     unserialize_submaps env p w = (Ret None, w)).
Proof.
  intros om_addr dirname quad_path legacy_quad_path oid filled loaded_from.
  rewrite unserialize_submaps_eq. fold om_addr. fold dirname.
  unfold resolve_quad_path, file_exist. fold quad_path. fold legacy_quad_path.
  split; [|split; [|split]].
  - intros Hnone jsin w1 Hlegacy Hload. rewrite Hnone, Hlegacy.
    rewrite bool_decide_eq_false_2 by (by intros []). cbn [negb].
    rewrite bool_decide_eq_true_2 by eauto.
    exact (unserialize_from_loaded legacy_quad_path p om_addr w w1
             (read_quad_file_loaded _ _ _ _ Hlegacy Hload)).
  - intros jsin w1 Hquad Hload. rewrite Hquad.
    rewrite bool_decide_eq_true_2 by eauto. cbn [negb].
    exact (unserialize_from_loaded quad_path p om_addr w w1
             (read_quad_file_loaded _ _ _ _ Hquad Hload)).
  - intros Hquad. by rewrite bool_decide_eq_true_2.
  - intros Hnone Hlegacy. rewrite Hnone, Hlegacy.
    rewrite bool_decide_eq_false_2 by (by intros []). cbn [negb].
    unfold unserialize_from, mbind, exn_state_bind, read_from_file_optional_json.
    by rewrite Hnone.
Qed.

End load_claims.

(** * The claims at concrete inputs *)

Lemma add_submap_rejects_resident_witness :
  is_Some (submaps Recording.partial_world !! Recording.origin) ∧
  add_submap Recording.origin (Some Recording.dirt) (submaps Recording.partial_world)
    = (false, Some Recording.dirt, submaps Recording.partial_world) ∧
  add_submap_raw Recording.origin (Some Recording.dirt) (submaps Recording.partial_world)
    = (false, None, submaps Recording.partial_world).
Proof.
  assert (is_Some (submaps Recording.partial_world !! Recording.origin)) as Hres.
  { vm_compute. eauto. }
  split; [exact Hres|].
  exact (add_submap_rejects_resident Recording.origin (Some Recording.dirt)
           (submaps Recording.partial_world) Hres).
Defined.

Lemma tombstone_deletes_file_witness :
  files (save_quad Recording.calm_env Recording.origin_dir Recording.origin_file
                   Recording.origin [] false Recording.tombstone_world).1
    !! Recording.origin_file = None.
Proof.
  apply tombstone_deletes_file.
  - vm_compute. eauto.
  - intros addr Hin.
    repeat (apply elem_of_cons in Hin as [->|Hin]);
      [eexists; split; [vm_compute; reflexivity|reflexivity] ..|].
    by apply elem_of_nil in Hin.
  - exists (mk_tripoint 0 0 0), Recording.air_reverted.
    split; [apply list_elem_of_here|]. split; [vm_compute; reflexivity|reflexivity].
Defined.

Lemma save_quad_inserts_null_entries_witness :
  let w' := (save_quad Recording.calm_env Recording.origin_dir Recording.origin_file
                       Recording.origin [] false Recording.partial_world).1 in
  submaps Recording.partial_world !! mk_tripoint 1 0 0 = None ∧
  submaps w' !! mk_tripoint 1 0 0 = Some None.
Proof.
  split; [vm_compute; reflexivity|].
  refine (proj1 (save_quad_inserts_null_entries Recording.calm_env Recording.origin_dir
                   Recording.origin_file Recording.origin [] false Recording.partial_world
                   (mk_tripoint 1 0 0) _ _)).
  - vm_compute. apply list_elem_of_further, list_elem_of_further, list_elem_of_here.
  - vm_compute. reflexivity.
Defined.

(** C2 at a concrete input.  One uniform submap of the quad is resident and
    the quad has no file.  [save_quad] writes nothing and queues nothing,
    but the three submaps of the quad that were absent are now keys of the
    buffer with a null pointer.  From then on [add_submap] rejects a chunk
    for such a coordinate and [lookup_submap] answers null without looking
    at the disk. *)
Theorem uniform_skip_leaves_null_entries :
  let w := Recording.partial_world in
  let r := save_quad Recording.calm_env Recording.origin_dir Recording.origin_file
                     Recording.origin [] false w in
  quad_all_uniform (submaps w) (submap_addrs Recording.origin) = true ∧
  files w !! Recording.origin_file = None ∧
  files r.1 = files w ∧ dirs r.1 = dirs w ∧ debug_log r.1 = debug_log w ∧ r.2 = [] ∧
  submaps w !! mk_tripoint 1 0 0 = None ∧
  submaps r.1 !! mk_tripoint 1 0 0 = Some None ∧
  submaps r.1 !! mk_tripoint 0 1 0 = Some None ∧
  submaps r.1 !! mk_tripoint 1 1 0 = Some None ∧
  submaps r.1 ≠ submaps w ∧
  (add_submap (mk_tripoint 1 0 0) (Some Recording.air) (submaps r.1)).1.1 = false ∧
  (add_submap (mk_tripoint 1 0 0) (Some Recording.air) (submaps w)).1.1 = true ∧
  lookup_submap Recording.calm_env (mk_tripoint 1 0 0) r.1 = (Ret None, r.1).
Proof.
  cbv zeta. repeat split; try (vm_compute; reflexivity).
  intros Heq. apply (f_equal (λ m, m !! mk_tripoint 1 0 0)) in Heq.
  vm_compute in Heq. discriminate.
Qed.

(** A quad outside the reality bubble is evicted by [save( false )]; the
    quad inside stays. *)
Example save_evicts_outside_bubble :
  let w' := save Recording.bubble_env false Recording.dirt_world in
  submaps w' !! mk_tripoint 2 0 0 = None ∧
  submaps w' !! mk_tripoint 0 0 0 = Some (Some Recording.dirt) ∧
  is_Some (files w' !! Recording.east_file) ∧
  is_Some (files w' !! Recording.origin_file).
Proof. cbv zeta. repeat split; vm_compute; eauto. Qed.

Lemma load_integrity_witness :
  (read_from_file_optional_json Recording.origin_file deserialize
                                Recording.saved_world).1 = Ret true ∧
  ∃ result w',
    lookup_submap Recording.calm_env Recording.east Recording.saved_world
    = (Ret result, w').
Proof.
  split; [vm_compute; reflexivity|].
  refine (proj2 (load_integrity Recording.calm_env Recording.east Recording.saved_world
                   (read_from_file_optional_json Recording.origin_file deserialize
                                                 Recording.saved_world).2 _)).
  vm_compute. reflexivity.
Defined.

(** The two outcomes of a load that found the quad file: the submap the
    file holds is returned; a submap missing from the file is reported and
    the load returns null. *)
Example load_integrity_outcomes :
  (lookup_submap Recording.calm_env Recording.origin Recording.saved_world).1
  = Ret (Some (Recording.mk_chunk false false
                 [("terrain", JString "t_dirt", 33); ("version", JInt 33, 33)])) ∧
  (lookup_submap Recording.calm_env Recording.east Recording.saved_world).1 = Ret None ∧
  debug_log (lookup_submap Recording.calm_env Recording.east Recording.saved_world).2
  = [MsgMissingSubmap Recording.origin_file Recording.east "field"].
Proof. repeat split; vm_compute; reflexivity. Qed.

Lemma legacy_fallback_witness :
  files Recording.old_world
    !! quad_file Recording.grouping_env Recording.old_quad = None ∧
  is_Some (files Recording.old_world !! Recording.old_file) ∧
  (unserialize_submaps Recording.grouping_env Recording.old_submap Recording.old_world).1
  = Ret (Some Recording.loaded_dirt).
Proof.
  split; [vm_compute; reflexivity|]. split; [vm_compute; eauto|].
  refine (eq_trans
            (f_equal fst
               (proj1 (legacy_fallback Recording.grouping_env Recording.old_submap
                         Recording.old_world) _
                  (JArray [JObject [("version", JInt 33);
                                    ("coordinates",
                                     JArray [JInt 2468; JInt 14; JInt 0]);
                                    ("terrain", JString "t_dirt")]])
                  (deserialize
                     (JArray [JObject [("version", JInt 33);
                                       ("coordinates",
                                        JArray [JInt 2468; JInt 14; JInt 0]);
                                       ("terrain", JString "t_dirt")]])
                     Recording.old_world).2 _ _)) _);
    vm_compute; reflexivity.
Defined.

(** The old save is found under its legacy name under the grouping locale,
    and is not found under the "C" locale, whose legacy name is the quad
    path itself. *)
Example legacy_fallback_loads :
  path_join (find_dirname "w" Recording.old_quad)
            (legacy_quad_name Recording.grouping_env Recording.old_quad)
  = Recording.old_file ∧
  (lookup_submap Recording.grouping_env Recording.old_submap Recording.old_world).1
  = Ret (Some (Recording.mk_chunk false false
                 [("version", JInt 33, 33); ("terrain", JString "t_dirt", 33)])) ∧
  lookup_submap Recording.calm_env Recording.old_submap Recording.old_world
  = (Ret None, Recording.old_world).
Proof. repeat split; vm_compute; reflexivity. Qed.

Lemma version_read_first_witness :
  ∃ (sm : Recording.chunk) (coords : tripoint),
    decode_record Recording.record_version_last = Ret (sm, coords) ∧
    Recording.chunk_decoded sm
    = [("terrain", JString "t_dirt", 33); ("version", JInt 33, 33)].
Proof.
  refine (version_read_first
            [("terrain", JString "t_dirt");
             ("coordinates", JArray [JInt 0; JInt 0; JInt 0])] [] 33 _ _).
  - intros Hin. repeat (apply elem_of_cons in Hin as [Hin|Hin]; [discriminate|]).
    by apply elem_of_nil in Hin.
  - intros val Hin.
    repeat (apply elem_of_cons in Hin as [Hin|Hin];
            [try discriminate; injection Hin as ->; eexists; reflexivity|]).
    by apply elem_of_nil in Hin.
Defined.

Lemma missing_version_defaults_to_zero_witness :
  read_version Recording.record_no_version = Ret 0 ∧
  ∃ (sm : Recording.chunk) (coords : tripoint),
    decode_record Recording.record_no_version = Ret (sm, coords) ∧
    Recording.chunk_decoded sm = [("terrain", JString "t_dirt", 0)].
Proof.
  refine (missing_version_defaults_to_zero Recording.record_no_version _ _).
  - intros Hin. repeat (apply elem_of_cons in Hin as [Hin|Hin]; [discriminate|]).
    by apply elem_of_nil in Hin.
  - intros val Hin.
    repeat (apply elem_of_cons in Hin as [Hin|Hin];
            [try discriminate; injection Hin as ->; eexists; reflexivity|]).
    by apply elem_of_nil in Hin.
Defined.

(** * The buffer as a cache: insertion, removal, lookup *)

Section cache_operations.
Context {submap : Type} `{!SubmapOps submap}.
Variable env : environment submap.

(** X1.  Insert, then look up: after [add_submap] put a chunk at a free
    coordinate, [lookup_submap] at that coordinate returns the chunk and
    changes nothing, neither buffer, disk nor log, whatever is on disk; the
    entry of every other coordinate is the one from before the insertion. *)
Theorem lookup_after_add (p : tripoint) (sm : submap) (w : world submap) :
  submaps w !! p = None →
  let added := add_submap p (Some sm) (submaps w) in
  let w' := set_submaps added.2 w in
  added.1 = (true, None) ∧
  lookup_submap env p w' = (Ret (Some sm), w') ∧
  (∀ k, k ≠ p → submaps w' !! k = submaps w !! k).
Proof.
  intros Hfree. cbv zeta. unfold add_submap.
  rewrite bool_decide_eq_false_2 by (rewrite Hfree; by intros []).
  cbn [fst snd]. split; [done|]. split.
  - unfold lookup_submap, mbind, exn_state_bind, gets. cbn [submaps set_submaps].
    by rewrite lookup_insert_eq.
  - intros k Hne. cbn [submaps set_submaps]. by rewrite lookup_insert_ne.
Qed.

(** X2.  Insert, then remove: [remove_submap] at a coordinate that
    [add_submap] has just filled gives back the world from before the
    insertion, with nothing reported. *)
Theorem remove_after_add (p : tripoint) (sm : option submap) (w : world submap) :
  submaps w !! p = None →
  remove_submap p (set_submaps (add_submap p sm (submaps w)).2 w) = w.
Proof.
  intros Hfree. unfold add_submap.
  rewrite bool_decide_eq_false_2 by (rewrite Hfree; by intros []).
  unfold remove_submap. cbn [snd submaps set_submaps].
  rewrite lookup_insert_eq. unfold set_submaps. cbn.
  rewrite delete_insert_id by done. by destruct w.
Qed.

(** X3.  Removing a coordinate twice: the second [remove_submap] finds no
    entry, reports "Tried to remove non-existing submap" for the
    coordinate and changes nothing else. *)
Theorem remove_twice (p : tripoint) (w : world submap) :
  remove_submap p (remove_submap p w)
  = debugmsg (MsgRemoveNonExisting p) (remove_submap p w).
Proof.
  assert (submaps (remove_submap p w) !! p = None) as Hgone.
  { unfold remove_submap. destruct (submaps w !! p) eqn:Hp; cbn; [|done].
    apply lookup_delete_eq. }
  unfold remove_submap at 1. by rewrite Hgone.
Qed.

(** What [remove_submap] leaves of the buffer. *)
Lemma remove_submap_lookup (p k : tripoint) (w : world submap) :
  submaps (remove_submap p w) !! k = if bool_decide (k = p) then None else submaps w !! k.
Proof.
  unfold remove_submap. case_bool_decide as Hk.
  - subst k. destruct (submaps w !! p) eqn:Hp; cbn; [apply lookup_delete_eq|done].
  - destruct (submaps w !! p) eqn:Hp; cbn; [by apply lookup_delete_ne|done].
Qed.

(** X4.  [submap_exists] against [lookup_submap].  At a key that holds a
    null pointer [submap_exists] answers [true] although [lookup_submap]
    returns null, and neither touches the world.  At every other coordinate
    the two agree: they leave the same world behind and [submap_exists]
    answers [true] exactly when [lookup_submap] returns a chunk. *)
Theorem submap_exists_vs_lookup (p : tripoint) (w : world submap) :
  (submaps w !! p = Some None →
     submap_exists env p w = (Ret true, w) ∧ lookup_submap env p w = (Ret None, w)) ∧
  (submaps w !! p ≠ Some None →
     ∃ result w', lookup_submap env p w = (Ret result, w') ∧
                  submap_exists env p w = (Ret (bool_decide (is_Some result)), w')).
Proof.
  split.
  - intros Hnull. unfold submap_exists, lookup_submap, mbind, exn_state_bind, gets.
    by rewrite Hnull.
  - intros Hp. unfold submap_exists, lookup_submap, mbind, exn_state_bind, gets.
    destruct (submaps w !! p) as [[sm|]|] eqn:Hentry; [|done|].
    + eexists _, _. split; [done|]. unfold mret, exn_state_ret.
      by rewrite bool_decide_eq_true_2 by eauto.
    + unfold try_catch, mbind, exn_state_bind.
      destruct (unserialize_submaps env p w) as [[result|what] w'].
      * by eexists _, _.
      * unfold modify, mret, exn_state_ret. eexists _, _. split; [done|].
        by rewrite bool_decide_eq_false_2 by (by intros []).
Qed.

(** X5.  Not found is not an error: when the coordinate is not in the
    buffer and neither the quad file nor the file under the legacy name
    exists, [lookup_submap] returns null and [submap_exists] answers
    [false]; the buffer, the disk and the log are as before. *)
Theorem lookup_without_file (p : tripoint) (w : world submap) :
  let om_addr := project_to_omt p in
  let dirname := find_dirname (world_base_save_path env) om_addr in
  submaps w !! p = None →
  files w !! find_quad_path dirname om_addr = None →
  files w !! path_join dirname (legacy_quad_name env om_addr) = None →
  lookup_submap env p w = (Ret None, w) ∧ submap_exists env p w = (Ret false, w).
Proof.
  intros om_addr dirname Hp Hquad Hlegacy.
  assert (unserialize_submaps env p w = (Ret None, w)) as Hload.
  { unfold unserialize_submaps, mbind, exn_state_bind, gets, resolve_quad_path, file_exist.
    fold om_addr. fold dirname. rewrite Hquad, Hlegacy.
    rewrite bool_decide_eq_false_2 by (by intros []). cbn [negb].
    unfold unserialize_from, mbind, exn_state_bind, read_from_file_optional_json.
    by rewrite Hquad. }
  unfold lookup_submap, submap_exists, mbind, exn_state_bind, gets, try_catch.
  rewrite Hp, Hload. split; [done|].
  unfold mret, exn_state_ret. by rewrite bool_decide_eq_false_2 by (by intros []).
Qed.

(** What the loop of [clear_outside_reality_bubble] leaves of a buffer. *)
Lemma erase_outside_lookup (here_inbounds : tripoint → bool) (keys : list tripoint)
    (m : gmap tripoint (option submap)) (k : tripoint) :
  foldl (λ m key, if here_inbounds key then m else delete key m) m keys !! k
  = if bool_decide (k ∈ keys ∧ here_inbounds k = false) then None else m !! k.
Proof.
  revert m. induction keys as [|a keys IH]; intros m.
  - rewrite bool_decide_eq_false_2; [done|]. intros [Hin _]. inversion Hin.
  - cbn [foldl]. rewrite IH.
    destruct (decide (k ∈ keys ∧ here_inbounds k = false)) as [Hk|Hk].
    + rewrite !bool_decide_eq_true_2; [done|by destruct Hk as [??]; split;
        [apply list_elem_of_further|]|done].
    + rewrite (bool_decide_eq_false_2 _ Hk).
      destruct (decide (k = a)) as [->|Hne].
      * destruct (here_inbounds a) eqn:Ha.
        -- rewrite bool_decide_eq_false_2; [done|]. by intros [_ ?].
        -- rewrite lookup_delete_eq.
           rewrite bool_decide_eq_true_2; [done|]. split; [apply list_elem_of_here|done].
      * rewrite bool_decide_eq_false_2.
        -- destruct (here_inbounds a); [done|]. by rewrite lookup_delete_ne.
        -- intros [[->|Hin]%elem_of_cons Hout]; [done|]. by apply Hk.
Qed.

(** X6.  [clear_outside_reality_bubble] keeps exactly the entries whose
    coordinate is inside the bubble, each as it was, erases every other
    entry, and touches neither the disk nor the log. *)
Theorem clear_outside_keeps_inside (here_inbounds : tripoint → bool) (w : world submap) :
  let w' := clear_outside_reality_bubble here_inbounds w in
  (∀ k, submaps w' !! k = if here_inbounds k then submaps w !! k else None) ∧
  files w' = files w ∧ debug_log w' = debug_log w.
Proof.
  intros w'. split; [|done]. intros k. unfold w', clear_outside_reality_bubble.
  cbn [submaps set_submaps]. rewrite erase_outside_lookup.
  destruct (here_inbounds k) eqn:Hk.
  - rewrite bool_decide_eq_false_2; [done|]. by intros [_ ?].
  - destruct (submaps w !! k) as [entry|] eqn:Hentry.
    + rewrite bool_decide_eq_true_2; [done|]. split; [|done].
      apply elem_of_cache_keys. eauto.
    + by destruct (bool_decide _).
Qed.

End cache_operations.

(** * More on saving the whole buffer *)

Section save_operations.
Context {submap : Type} `{!SubmapOps submap}.
Variable env : environment submap.

Lemma launch_tasks_nodup delete_after_save keys (saved : gset tripoint)
    (futures : list save_task) :
  NoDup (task_om_addr <$> futures) →
  (∀ t, t ∈ futures → task_om_addr t ∈ saved) →
  NoDup (task_om_addr <$> (foldl (launch_task env delete_after_save)
                                 (saved, futures) keys).2).
Proof.
  revert saved futures. induction keys as [|k keys IH]; intros saved futures Hnd Hin.
  - done.
  - cbn [foldl]. unfold launch_task at 2. case_bool_decide as Hseen.
    + by apply IH.
    + apply IH.
      * rewrite fmap_app. apply NoDup_app. split; [done|]. split.
        -- intros om Hom ->%list_elem_of_singleton. cbn in Hom.
           apply list_elem_of_fmap in Hom as (t & Heq & Ht).
           apply Hseen. rewrite Heq. by apply Hin.
        -- apply NoDup_singleton.
      * intros t [Ht|Ht]%elem_of_app.
        -- apply elem_of_union. right. by apply Hin.
        -- apply list_elem_of_singleton in Ht as ->. cbn.
           apply elem_of_union. left. by apply elem_of_singleton.
Qed.

(** X7.  One task per quad: in one [save] no two tasks belong to the same
    quad, and no two tasks have the same quad file, so no file is written
    by two tasks. *)
Theorem save_tasks_distinct delete_after_save (m : gmap tripoint (option submap)) :
  NoDup (task_om_addr <$> save_tasks env delete_after_save m) ∧
  NoDup (task_quad_path <$> save_tasks env delete_after_save m).
Proof.
  assert (NoDup (task_om_addr <$> save_tasks env delete_after_save m)) as Hnd.
  { unfold save_tasks. apply launch_tasks_nodup; [constructor|].
    intros t Ht. inversion Ht. }
  split; [done|].
  destruct (save_tasks_eq env delete_after_save m) as (oms & Heq & _ & _).
  rewrite Heq in *. rewrite <-list_fmap_compose in *.
  assert (NoDup oms) as Homs.
  { eapply NoDup_fmap_1. exact Hnd. }
  apply NoDup_fmap_2_strong; [|done].
  intros om1 om2 _ _ Hpath. cbn in Hpath. by apply quad_file_inj in Hpath.
Qed.

Lemma run_tasks_resident (tasks : list save_task) (w : world submap)
    (l : list tripoint) (p : tripoint) :
  resident (submaps (foldl (run_task env) (w, l) tasks).1) p = resident (submaps w) p.
Proof.
  revert w l. induction tasks as [|t tasks IH]; intros w l; [done|].
  cbn [foldl]. rewrite run_task_eq. cbv zeta. rewrite IH.
  cbn [fst]. by rewrite save_quad_submaps, index_all_resident.
Qed.

Lemma run_tasks_files_other (tasks : list save_task) (w : world submap)
    (l : list tripoint) (path : cata_path) :
  (∀ t, t ∈ tasks → task_quad_path t ≠ path) →
  files (foldl (run_task env) (w, l) tasks).1 !! path = files w !! path.
Proof.
  revert w l. induction tasks as [|t tasks IH]; intros w l Hne; [done|].
  cbn [foldl]. rewrite run_task_eq. cbv zeta. rewrite IH.
  - cbn [fst]. apply save_quad_files_other. intros Heq.
    by apply (Hne t (list_elem_of_here _ _)).
  - intros t' Ht'. by apply Hne, list_elem_of_further.
Qed.

(** X8.  [save] touches the files of the quads that have a key in the
    buffer and no other file: a path that is the quad file of no key's quad
    holds after [save] what it held before. *)
Theorem save_leaves_other_files delete_after_save (w : world submap)
    (path : cata_path) :
  (∀ k, is_Some (submaps w !! k) → submap_file env k ≠ path) →
  files (save env delete_after_save w) !! path = files w !! path.
Proof.
  intros Hother. rewrite save_unfold. cbv zeta. rewrite remove_all_files.
  set (w0 := assure_dir_exist (world_base_save_path env +:+ "/maps") w).
  destruct (save_tasks_eq env delete_after_save (submaps w0)) as (oms & -> & Hsrc & _).
  rewrite run_tasks_files_other; [done|].
  intros t (om & -> & Hom)%list_elem_of_fmap. cbn.
  destruct (Hsrc om Hom) as (k & Hk & <-). by apply Hother.
Qed.

Lemma save_quad_no_queue dirname filename om_addr submaps_to_delete (w : world submap) :
  (save_quad env dirname filename om_addr submaps_to_delete false w).2
  = submaps_to_delete.
Proof.
  rewrite save_quad_eq. cbv zeta. rewrite andb_false_r.
  destruct (_ && negb _); [done|]. by destruct (write_io env filename).
Qed.

(** What the tasks queue: addresses of quads whose task runs with the
    deletion flag set. *)
Lemma run_tasks_queued delete_after_save (oms : list tripoint) (w : world submap)
    (l : list tripoint) (p : tripoint) :
  p ∈ (foldl (run_task env) (w, l) (task_of_quad env delete_after_save <$> oms)).2 →
  p ∈ l ∨ delete_after_save || negb (inbounds env (project_to_omt p)) = true.
Proof.
  revert w l. induction oms as [|om oms IH]; intros w l; [by left|].
  cbn [fmap list_fmap foldl]. rewrite run_task_eq. cbv zeta.
  cbn [task_of_quad task_dirname task_quad_path task_om_addr
       task_delete_after_save task_inside_reality_bubble].
  intros [Hin|Hflag]%IH; [|by right].
  apply elem_of_app in Hin as [Hin|Hin]; [by left|]. right.
  destruct (delete_after_save || negb (inbounds env om)) eqn:Hflag.
  - destruct (save_quad_queue env (find_dirname (world_base_save_path env) om)
                (quad_file env om) om [] true w) as (queued & Hq & Hsub).
    rewrite Hq in Hin. cbn [app] in Hin.
    by rewrite (project_to_omt_submap_addrs om p (Hsub p Hin)).
  - rewrite save_quad_no_queue in Hin. inversion Hin.
Qed.

(** X9.  [save] creates and alters no chunk: a chunk resident after [save]
    was resident at the same coordinate before.  Without
    [delete_after_save], a quad inside the reality bubble keeps its
    chunks. *)
Theorem save_only_evicts delete_after_save (w : world submap) (p : tripoint) :
  (∀ sm, resident (submaps (save env delete_after_save w)) p = Some sm →
         resident (submaps w) p = Some sm) ∧
  (delete_after_save = false → inbounds env (project_to_omt p) = true →
   resident (submaps (save env delete_after_save w)) p = resident (submaps w) p).
Proof.
  rewrite save_unfold. cbv zeta.
  set (w0 := assure_dir_exist (world_base_save_path env +:+ "/maps") w).
  destruct (save_tasks_eq env delete_after_save (submaps w0)) as (oms & -> & _ & _).
  unfold resident at 1 3. rewrite remove_all_submaps.
  pose proof (run_tasks_resident (task_of_quad env delete_after_save <$> oms) w0 [] p)
    as Hres.
  unfold resident at 1 in Hres. split.
  - intros sm. case_bool_decide; [done|]. by rewrite Hres.
  - intros -> Hin. rewrite bool_decide_eq_false_2; [by rewrite Hres|].
    intros [Hnil|Hflag]%run_tasks_queued; [inversion Hnil|].
    by rewrite Hin in Hflag.
Qed.

Lemma run_tasks_queue_flagged (p : tripoint) delete_after_save
    (oms : list tripoint) (w : world submap) (l : list tripoint) :
  is_Some (resident (submaps w) p) →
  delete_after_save || negb (inbounds env (project_to_omt p)) = true →
  write_io env (submap_file env p) ≠ FailedBeforeWriter →
  project_to_omt p ∈ oms →
  p ∈ (foldl (run_task env) (w, l) (task_of_quad env delete_after_save <$> oms)).2.
Proof.
  intros Hres Hflag Hio. revert w l Hres.
  induction oms as [|om oms IH]; intros w l Hres Hin; [inversion Hin|].
  cbn [fmap list_fmap foldl]. rewrite run_task_eq. cbv zeta.
  cbn [task_of_quad task_dirname task_quad_path task_om_addr
       task_delete_after_save task_inside_reality_bubble].
  destruct (decide (om = project_to_omt p)) as [->|Hne].
  - apply run_tasks_keep_queue, elem_of_app. right.
    rewrite save_quad_eq. cbv zeta. rewrite Hflag.
    assert (p ∈ resident_addrs (submaps w) (submap_addrs (project_to_omt p))) as Hq.
    { apply elem_of_resident_addrs. split; [apply submap_addrs_project_to_omt|done]. }
    unfold submap_file in Hio.
    destruct (quad_all_uniform _ _), (quad_has_reverted _ _ && file_exist _ _);
      cbn [andb negb app snd]; try done.
    + destruct (write_io env (quad_file env (project_to_omt p))); cbn [snd];
        try done; apply elem_of_app; by left.
    + by destruct (write_io env (quad_file env (project_to_omt p))).
    + by destruct (write_io env (quad_file env (project_to_omt p))).
  - apply IH.
    + by rewrite save_quad_submaps, index_all_resident.
    + apply elem_of_cons in Hin as [Heq|Hin]; [by destruct Hne|done].
Qed.

(** X10.  When the deletion flag of a coordinate's quad is set (the caller
    asked for it or the quad lies outside the reality bubble) and the write
    of the quad file commits, no chunk is resident at the coordinate after
    [save], uniform or not. *)
Theorem save_evicts_flagged delete_after_save (w : world submap) (p : tripoint) :
  delete_after_save || negb (inbounds env (project_to_omt p)) = true →
  write_io env (submap_file env p) = Committed →
  resident (submaps (save env delete_after_save w)) p = None.
Proof.
  intros Hflag Hio. rewrite save_unfold. cbv zeta.
  set (w0 := assure_dir_exist (world_base_save_path env +:+ "/maps") w).
  destruct (save_tasks_eq env delete_after_save (submaps w0)) as (oms & -> & _ & Hcov).
  unfold resident. rewrite remove_all_submaps.
  destruct (resident (submaps w0) p) as [sm|] eqn:Hres.
  - rewrite bool_decide_eq_true_2; [done|].
    apply run_tasks_queue_flagged; [by rewrite Hres|done|by rewrite Hio|].
    apply Hcov. apply resident_Some in Hres. eauto.
  - case_bool_decide; [done|].
    pose proof (run_tasks_resident (task_of_quad env delete_after_save <$> oms) w0 [] p)
      as Hkeep.
    rewrite Hres in Hkeep. exact Hkeep.
Qed.

Lemma quad_flags_ext (m1 m2 : gmap tripoint (option submap)) (addrs : list tripoint) :
  (∀ k, resident m1 k = resident m2 k) →
  quad_all_uniform m1 addrs = quad_all_uniform m2 addrs ∧
  quad_has_reverted m1 addrs = quad_has_reverted m2 addrs.
Proof.
  intros Hres. unfold quad_all_uniform, quad_has_reverted.
  induction addrs as [|a addrs [IH1 IH2]]; [done|].
  cbn [forallb existsb]. by rewrite IH1, IH2, Hres.
Qed.

Lemma run_tasks_uniform_skip (skipped : tripoint) delete_after_save (oms : list tripoint)
    (w : world submap) (l : list tripoint) :
  files w !! quad_file env skipped = None →
  quad_all_uniform (submaps w) (submap_addrs skipped) = true →
  files (foldl (run_task env) (w, l) (task_of_quad env delete_after_save <$> oms)).1
    !! quad_file env skipped = None.
Proof.
  revert w l. induction oms as [|om oms IH]; intros w l Hfile Hall; [done|].
  cbn [fmap list_fmap foldl]. rewrite run_task_eq. cbv zeta.
  cbn [task_of_quad task_dirname task_quad_path task_om_addr
       task_delete_after_save task_inside_reality_bubble].
  apply IH.
  - destruct (decide (om = skipped)) as [->|Hne].
    + rewrite save_quad_eq. cbv zeta. rewrite Hall.
      assert (file_exist (quad_file env skipped) w = false) as ->.
      { unfold file_exist. rewrite Hfile. by apply bool_decide_eq_false_2; intros []. }
      by rewrite andb_false_r.
    + rewrite save_quad_files_other; [done|].
      intros Heq. by apply quad_file_inj in Heq.
  - rewrite save_quad_submaps. by rewrite (proj1 (quad_flags_preserved _ _ _)).
Qed.

(** X11.  A quad whose resident chunks are all uniform and that has no file
    gets none: after [save] there is still no file at its path, whatever
    the flag and however the writes of the other quads end. *)
Theorem save_skips_uniform_quad (skipped : tripoint) delete_after_save
    (w : world submap) :
  files w !! quad_file env skipped = None →
  quad_all_uniform (submaps w) (submap_addrs skipped) = true →
  files (save env delete_after_save w) !! quad_file env skipped = None.
Proof.
  intros Hfile Hall. rewrite save_unfold. cbv zeta. rewrite remove_all_files.
  set (w0 := assure_dir_exist (world_base_save_path env +:+ "/maps") w).
  destruct (save_tasks_eq env delete_after_save (submaps w0)) as (oms & -> & _ & _).
  by apply run_tasks_uniform_skip.
Qed.

Lemma run_tasks_written (written : tripoint) (m0 : gmap tripoint (option submap))
    delete_after_save (oms : list tripoint) (w : world submap) (l : list tripoint) :
  (∀ k, resident (submaps w) k = resident m0 k) →
  quad_all_uniform m0 (submap_addrs written) = false →
  write_io env (quad_file env written) = Committed →
  written ∈ oms ∨
    files w !! quad_file env written
    = Some (FileJson (JArray (quad_records env m0 (submap_addrs written)))) →
  files (foldl (run_task env) (w, l) (task_of_quad env delete_after_save <$> oms)).1
    !! quad_file env written
  = Some (FileJson (JArray (quad_records env m0 (submap_addrs written)))).
Proof.
  intros Hres Hnu Hio. revert w l Hres.
  induction oms as [|om oms IH]; intros w l Hres Hcase.
  - destruct Hcase as [Hin|Hfile]; [inversion Hin|done].
  - cbn [fmap list_fmap foldl]. rewrite run_task_eq. cbv zeta.
    cbn [task_of_quad task_dirname task_quad_path task_om_addr
         task_delete_after_save task_inside_reality_bubble].
    apply IH.
    + intros k. by rewrite save_quad_submaps, index_all_resident.
    + destruct (decide (om = written)) as [->|Hne].
      * right. rewrite save_quad_eq. cbv zeta.
        rewrite (proj1 (quad_flags_ext _ _ _ Hres)), Hnu, Hio. cbn [andb fst files set_files].
        rewrite lookup_insert_eq. by rewrite (quad_records_ext env _ _ _ Hres).
      * destruct Hcase as [Hin|Hfile].
        -- left. apply elem_of_cons in Hin as [Heq|Hin]; [by destruct Hne|done].
        -- right. rewrite save_quad_files_other; [done|].
           intros Heq. by apply quad_file_inj in Heq.
Qed.

(** X12.  A quad with a non-uniform chunk whose write commits: after [save]
    its file holds one record for each chunk resident in the quad, the
    uniform ones included, in the order of the quad's offsets, and nothing
    else. *)
Theorem save_writes_resident_chunks (p : tripoint) (sm : submap) delete_after_save
    (w : world submap) :
  resident (submaps w) p = Some sm →
  is_uniform sm = false →
  write_io env (submap_file env p) = Committed →
  files (save env delete_after_save w) !! submap_file env p
  = Some (FileJson (JArray (quad_records env (submaps w)
                                         (submap_addrs (project_to_omt p))))).
Proof.
  intros Hres Hnu Hio. rewrite save_unfold. cbv zeta. rewrite remove_all_files.
  set (w0 := assure_dir_exist (world_base_save_path env +:+ "/maps") w).
  destruct (save_tasks_eq env delete_after_save (submaps w0)) as (oms & -> & _ & Hcov).
  apply run_tasks_written; [done| |done|].
  - apply not_true_is_false. intros Hall.
    pose proof (proj1 (quad_all_uniform_true _ _) Hall p sm
                  (submap_addrs_project_to_omt p) Hres). congruence.
  - left. apply Hcov. apply resident_Some in Hres. cbn. eauto.
Qed.

(** *** The eviction loop and the log *)

Lemma remove_all_log_mono (l : list tripoint) (w : world submap) (msg : debug_msg) :
  msg ∈ debug_log w → msg ∈ debug_log (foldl (λ w elem, remove_submap elem w) w l).
Proof.
  revert w. induction l as [|a l IH]; intros w Hmsg; [done|].
  cbn [foldl]. apply IH. unfold remove_submap.
  destruct (submaps w !! a); cbn; [done|]. apply elem_of_app. by left.
Qed.

Lemma remove_all_reports (l : list tripoint) (w : world submap) (p : tripoint) :
  submaps w !! p = None → p ∈ l →
  MsgRemoveNonExisting p ∈ debug_log (foldl (λ w elem, remove_submap elem w) w l).
Proof.
  revert w. induction l as [|a l IH]; intros w Hgone Hin; [inversion Hin|].
  cbn [foldl]. destruct (decide (a = p)) as [->|Hne].
  - apply remove_all_log_mono. unfold remove_submap. rewrite Hgone. cbn.
    apply elem_of_app. right. apply list_elem_of_here.
  - apply IH.
    + rewrite remove_submap_lookup. by destruct (bool_decide (p = a)).
    + apply elem_of_cons in Hin as [Heq|Hin]; [by destruct Hne|done].
Qed.

Lemma remove_all_reports_second (l1 l2 : list tripoint) (w : world submap)
    (p : tripoint) :
  p ∈ l2 →
  MsgRemoveNonExisting p
  ∈ debug_log (foldl (λ w elem, remove_submap elem w) w (l1 ++ p :: l2)).
Proof.
  intros Hin. rewrite (assoc_L (++) l1 [p] l2 : l1 ++ p :: l2 = (l1 ++ [p]) ++ l2).
  rewrite foldl_app. apply remove_all_reports; [|done].
  rewrite remove_all_submaps, bool_decide_eq_true_2; [done|].
  apply elem_of_app. right. apply list_elem_of_here.
Qed.

Lemma run_tasks_list_grows (tasks : list save_task) (w : world submap)
    (l : list tripoint) :
  ∃ suffix, (foldl (run_task env) (w, l) tasks).2 = l ++ suffix.
Proof.
  revert w l. induction tasks as [|t tasks IH]; intros w l.
  - exists []. by rewrite app_nil_r.
  - cbn [foldl]. rewrite run_task_eq. cbv zeta.
    destruct (IH (save_quad env (task_dirname t) (task_quad_path t) (task_om_addr t) []
                    (task_delete_after_save t || negb (task_inside_reality_bubble t)) w).1
                 (l ++ (save_quad env (task_dirname t) (task_quad_path t)
                          (task_om_addr t) []
                          (task_delete_after_save t
                           || negb (task_inside_reality_bubble t)) w).2))
      as (suffix & ->).
    eexists. by rewrite <-app_assoc.
Qed.

(** The tasks up to and including the first one of a tombstone quad whose
    deletion flag is set: each resident address of the quad is queued
    twice. *)
Lemma run_tasks_tombstone_queue (p : tripoint) delete_after_save (oms : list tripoint)
    (w : world submap) (l : list tripoint) :
  is_Some (resident (submaps w) p) →
  is_Some (files w !! submap_file env p) →
  quad_all_uniform (submaps w) (submap_addrs (project_to_omt p)) = true →
  quad_has_reverted (submaps w) (submap_addrs (project_to_omt p)) = true →
  delete_after_save || negb (inbounds env (project_to_omt p)) = true →
  write_io env (submap_file env p) ≠ FailedBeforeWriter →
  project_to_omt p ∈ oms →
  ∃ l1 l2,
    (foldl (run_task env) (w, l) (task_of_quad env delete_after_save <$> oms)).2
    = l1 ++ p :: l2 ∧ p ∈ l2.
Proof.
  intros Hres Hfile Hall Hrev Hflag Hio. revert w l Hres Hfile Hall Hrev.
  induction oms as [|om oms IH]; intros w l Hres Hfile Hall Hrev Hin; [inversion Hin|].
  cbn [fmap list_fmap foldl]. rewrite run_task_eq. cbv zeta.
  cbn [task_of_quad task_dirname task_quad_path task_om_addr
       task_delete_after_save task_inside_reality_bubble].
  destruct (decide (om = project_to_omt p)) as [->|Hne].
  - match goal with
    | |- ∃ _ _, (foldl _ (?w1, ?l1) ?ts).2 = _ ∧ _ =>
        destruct (run_tasks_list_grows ts w1 l1) as (suffix & ->)
    end.
    rewrite save_quad_eq. cbv zeta. rewrite Hall, Hrev, Hflag.
    assert (file_exist (quad_file env (project_to_omt p)) w = true) as ->
      by (unfold file_exist; by apply bool_decide_eq_true_2).
    cbn [andb negb app].
    assert (p ∈ resident_addrs (submaps w) (submap_addrs (project_to_omt p))) as Hq.
    { apply elem_of_resident_addrs. split; [apply submap_addrs_project_to_omt|done]. }
    apply list_elem_of_split in Hq as (a & b & Hq).
    unfold submap_file in Hio.
    assert ((match write_io env (quad_file env (project_to_omt p)) with
             | FailedBeforeWriter => false | _ => true end) = true) as Hran
      by (by destruct (write_io env (quad_file env (project_to_omt p)))).
    exists (l ++ a), (b ++ (a ++ p :: b) ++ suffix).
    split.
    + destruct (write_io env (quad_file env (project_to_omt p))); try done;
        cbn [snd]; rewrite Hq, <-!app_assoc; cbn [app]; by rewrite <-?app_assoc.
    + apply elem_of_app. right. apply elem_of_app. left.
      apply elem_of_app. right. apply list_elem_of_here.
  - apply IH.
    + by rewrite save_quad_submaps, index_all_resident.
    + rewrite save_quad_files_other; [done|].
      intros Heq. by apply quad_file_inj in Heq.
    + rewrite save_quad_submaps. by rewrite (proj1 (quad_flags_preserved _ _ _)).
    + rewrite save_quad_submaps. by rewrite (proj2 (quad_flags_preserved _ _ _)).
    + apply elem_of_cons in Hin as [Heq|Hin]; [by destruct Hne|done].
Qed.

(** X13.  A tombstone quad saved with its deletion flag set: every chunk
    of the quad is queued for eviction twice, once before the write and
    once by the writer, so the eviction loop of [save] removes it and then
    reports "Tried to remove non-existing submap" for its coordinate. *)
Theorem save_tombstone_reports_removal (p : tripoint) delete_after_save
    (w : world submap) :
  is_Some (resident (submaps w) p) →
  is_Some (files w !! submap_file env p) →
  quad_all_uniform (submaps w) (submap_addrs (project_to_omt p)) = true →
  quad_has_reverted (submaps w) (submap_addrs (project_to_omt p)) = true →
  delete_after_save || negb (inbounds env (project_to_omt p)) = true →
  write_io env (submap_file env p) ≠ FailedBeforeWriter →
  MsgRemoveNonExisting p ∈ debug_log (save env delete_after_save w) ∧
  submaps (save env delete_after_save w) !! p = None.
Proof.
  intros Hres Hfile Hall Hrev Hflag Hio. rewrite save_unfold. cbv zeta.
  set (w0 := assure_dir_exist (world_base_save_path env +:+ "/maps") w).
  destruct (save_tasks_eq env delete_after_save (submaps w0)) as (oms & -> & _ & Hcov).
  destruct (run_tasks_tombstone_queue p delete_after_save oms w0 [])
    as (l1 & l2 & -> & Hin); try done.
  { apply Hcov. destruct Hres as [sm Hres]. apply resident_Some in Hres. cbn. eauto. }
  split.
  - by apply remove_all_reports_second.
  - rewrite remove_all_submaps, bool_decide_eq_true_2; [done|].
    apply elem_of_app. right. apply list_elem_of_here.
Qed.

End save_operations.

(** * More on loading *)

Section load_operations.
Context {submap : Type} `{!SubmapOps submap}.
Variable env : environment submap.

(** X14.  The paths are one-to-one on quads: two submaps have the same
    quad file exactly when they belong to the same quad, so distinct quads
    never share a file. *)
Theorem submap_file_same_quad (p1 p2 : tripoint) :
  submap_file env p1 = submap_file env p2 ↔ project_to_omt p1 = project_to_omt p2.
Proof.
  unfold submap_file. split; [apply quad_file_inj|by intros ->].
Qed.

(** X15.  Under a locale that prints integers without grouping the legacy
    name is the quad file's own name: the fallback of [unserialize_submaps]
    reads the quad path, whatever is on disk. *)
Theorem legacy_name_without_grouping (dirname : cata_path) (om_addr : tripoint)
    (w : world submap) :
  (∀ n, locale_put env n = pretty n) →
  path_join dirname (legacy_quad_name env om_addr) = find_quad_path dirname om_addr ∧
  resolve_quad_path env dirname om_addr w = find_quad_path dirname om_addr.
Proof.
  intros Hplain.
  assert (path_join dirname (legacy_quad_name env om_addr)
          = find_quad_path dirname om_addr) as Hsame.
  { unfold find_quad_path, legacy_quad_name, format_ddd. rewrite !Hplain.
    by rewrite !string_app_assoc. }
  split; [done|]. unfold resolve_quad_path. rewrite Hsame.
  by destruct (negb _), (file_exist (find_quad_path dirname om_addr) w).
Qed.

Lemma load_members_no_coordinates (version : Z) (obj : JsonMembers)
    (sm : submap) (c : tripoint) :
  "coordinates" ∉ obj.*1 →
  load_members version obj (sm, c) =
    (sm ← replay_loads ((λ m, (m.1, m.2, version)) <$> obj) sm; mret (sm, c)).
Proof.
  revert sm. induction obj as [|[name val] obj IH]; intros sm Hobj; [done|].
  apply not_elem_of_cons in Hobj as [Hname Hobj].
  cbn [load_members]. unfold load_member. cbn [fst snd].
  rewrite bool_decide_eq_false_2 by done. csimpl.
  destruct (load sm val name version) as [sm1|what]; csimpl; [by apply IH|done].
Qed.

(** The member a name refers to, when only one member has the name. *)
Lemma json_member_unique (name : string) (obj : JsonMembers) (v : JsonValue) :
  (name, v) ∈ obj → (∀ v', (name, v') ∈ obj → v' = v) →
  json_member name obj = Some v.
Proof.
  induction obj as [|[n v0] obj IH]; intros Hin Huniq; [inversion Hin|].
  simpl. case_decide as Hname.
  - subst n. f_equal. apply Huniq, list_elem_of_here.
  - apply IH.
    + apply elem_of_cons in Hin as [[= <- _]|Hin]; [done|done].
    + intros v' Hv'. by apply Huniq, list_elem_of_further.
Qed.

(** The loop over the members of a record whose coordinates members all
    read as [addr]: the [load] calls on the other members in the order of
    the iteration, and [addr] once a coordinates member was met. *)
Lemma load_members_coordinates (version : Z) (obj : JsonMembers) (addr : tripoint)
    (sm : submap) (c : tripoint) :
  (∀ val, ("coordinates", val) ∈ obj → read_coordinates val = Ret addr) →
  load_members version obj (sm, c) =
    (sm ← replay_loads ((λ m, (m.1, m.2, version))
                          <$> filter (λ m, m.1 ≠ "coordinates") obj) sm;
     mret (sm, if bool_decide ("coordinates" ∈ obj.*1) then addr else c)).
Proof.
  revert sm c. induction obj as [|[name val] obj IH]; intros sm c Hcoords.
  - done.
  - assert (∀ val, ("coordinates", val) ∈ obj → read_coordinates val = Ret addr)
      as Hrest by (intros ??; by apply Hcoords, list_elem_of_further).
    cbn [load_members]. unfold load_member. cbn [fst snd].
    rewrite filter_cons. cbn [fst].
    destruct (decide (name = "coordinates")) as [->|Hname].
    + rewrite (bool_decide_eq_true_2 ("coordinates" = "coordinates")) by done.
      rewrite (Hcoords val) by apply list_elem_of_here.
      rewrite decide_False by (by intros ?). csimpl. rewrite IH by done.
      by destruct (bool_decide _).
    + rewrite (bool_decide_eq_false_2 (name = "coordinates")) by done.
      rewrite decide_True by done. csimpl.
      destruct (load sm val name version) as [sm1|what]; csimpl; [|done].
      rewrite IH by done.
      apply (f_equal (λ b : bool, sm ← replay_loads _ sm1; mret (sm, if b then addr else c))).
      apply bool_decide_ext. rewrite elem_of_cons. split; [by right|].
      intros [?|?]; [by destruct Hname|done].
Qed.

(** X16.  Written, then read, in whatever order the JSON library iterates
    the members of an object: the record [save_quad] writes for a chunk at
    an address comes back from the loader with that address, and every
    other member, the version member and the members [store] wrote, is
    handed to [load] with the version that was written; provided [store]
    writes no member named like the coordinates or the version. *)
Theorem record_round_trip (addr : tripoint) (sm : submap)
    (written members : JsonMembers) :
  submap_record env addr sm = JObject written →
  members ≡ₚ written →
  "coordinates" ∉ (store sm).*1 →
  "version" ∉ (store sm).*1 →
  decode_record members =
    (sm ← replay_loads
            ((λ m, (m.1, m.2, savegame_version env))
               <$> filter (λ m, m.1 ≠ "coordinates") members) submap_new;
     mret (sm, addr)).
Proof.
  intros [= <-] Hperm Hcoords Hversion.
  assert (∀ name val, (name, val) ∈ store sm → name ∈ (store sm).*1) as Hnames
    by (intros name val Hin; apply list_elem_of_fmap; by exists (name, val)).
  unfold decode_record.
  rewrite (read_version_member _ (savegame_version env)).
  - csimpl. rewrite (load_members_coordinates _ _ addr).
    + rewrite bool_decide_eq_true_2; [done|].
      rewrite Hperm. cbn. apply list_elem_of_further, list_elem_of_here.
    + intros val Hin. rewrite Hperm in Hin.
      apply elem_of_cons in Hin as [[=]|Hin].
      apply elem_of_cons in Hin as [[= ->]|Hin]; [by destruct addr|].
      by apply Hnames in Hin.
  - apply json_member_unique.
    + rewrite Hperm. apply list_elem_of_here.
    + intros v' Hin. rewrite Hperm in Hin.
      apply elem_of_cons in Hin as [[= ->]|Hin]; [done|].
      apply elem_of_cons in Hin as [[=]|Hin].
      by apply Hnames in Hin.
Qed.

Lemma add_submap_keeps (c k : tripoint) (sm e : option submap)
    (m : gmap tripoint (option submap)) :
  m !! k = Some e → (add_submap c sm m).2 !! k = Some e.
Proof.
  intros Hk. unfold add_submap. case_bool_decide as Hc; [done|]. cbn.
  rewrite lookup_insert_ne; [done|]. intros ->. apply Hc. eauto.
Qed.

Lemma deserialize_submap_keeps (submap_json : JsonMembers) (w : world submap)
    (k : tripoint) (e : option submap) :
  submaps w !! k = Some e →
  submaps (deserialize_submap submap_json w).2 !! k = Some e.
Proof.
  intros Hk. unfold deserialize_submap, mbind, exn_state_bind, lift_outcome, gets, modify.
  destruct (decode_record submap_json) as [[sm coords]|what]; [|done].
  pose proof (add_submap_keeps coords k (Some sm) e (submaps w) Hk) as Hkeep.
  destruct (add_submap coords (Some sm) (submaps w)) as [[[] ptr] m]; by cbn in *.
Qed.

Lemma deserialize_records_keeps (ja : list JsonValue) (w : world submap)
    (k : tripoint) (e : option submap) :
  submaps w !! k = Some e → submaps (deserialize_records ja w).2 !! k = Some e.
Proof.
  revert w. induction ja as [|record ja IH]; intros w Hk; [done|].
  destruct record; try done. cbn [deserialize_records].
  unfold mbind, exn_state_bind.
  pose proof (deserialize_submap_keeps members w k e Hk) as Hkeep.
  destruct (deserialize_submap members w) as [[[]|what] w1]; [by apply IH|done].
Qed.

(** X17.  Loading never replaces what is resident: whatever the file
    holds, every entry of the buffer is after [deserialize] what it was
    before, also when the loader throws part-way; a record whose
    coordinates are already a key is reported as "already loaded", dropped,
    and the loop goes on. *)
Theorem deserialize_keeps_resident (w : world submap) :
  (∀ jsin k e, submaps w !! k = Some e →
               submaps (deserialize jsin w).2 !! k = Some e) ∧
  (∀ submap_json sm coords,
     decode_record submap_json = Ret (sm, coords) →
     is_Some (submaps w !! coords) →
     deserialize_submap submap_json w = (Ret tt, debugmsg (MsgAlreadyLoaded coords) w)).
Proof.
  split.
  - intros jsin k e Hk. destruct jsin; try done. by apply deserialize_records_keeps.
  - intros obj sm coords Hdec Hkey.
    unfold deserialize_submap, mbind, exn_state_bind, lift_outcome, gets, modify.
    rewrite Hdec. unfold add_submap. by rewrite bool_decide_eq_true_2.
Qed.

(** X18.  No rollback: when an element of the array is not an object, the
    loader throws there; the records in front of it are in the buffer, the
    elements behind it are not looked at. *)
Theorem deserialize_stops_at_bad_element (records rest : list JsonValue)
    (bad : JsonValue) (w w1 : world submap) :
  deserialize_records records w = (Ret tt, w1) →
  (∀ members, bad ≠ JObject members) →
  ∃ what, deserialize (JArray (records ++ bad :: rest)) w = (Throw what, w1).
Proof.
  intros Hok Hbad. cbn [deserialize]. revert w Hok.
  induction records as [|record records IH]; intros w Hok.
  - injection Hok as <-. cbn [app deserialize_records].
    destruct bad; try (by eexists); by destruct (Hbad members).
  - destruct record; try done. cbn [app deserialize_records] in *.
    unfold mbind, exn_state_bind in *.
    destruct (deserialize_submap members w) as [[[]|what] w2]; [by apply IH|done].
Qed.

(** X19.  A record without a coordinates member is not rejected: it is
    decoded with the default-constructed coordinates and, when that
    coordinate is free, its chunk is inserted there. *)
Theorem record_without_coordinates (submap_json : JsonMembers) (sm : submap)
    (coords : tripoint) (w : world submap) :
  "coordinates" ∉ submap_json.*1 →
  decode_record submap_json = Ret (sm, coords) →
  coords = tripoint_default ∧
  (submaps w !! tripoint_default = None →
   deserialize_submap submap_json w
   = (Ret tt, set_submaps (<[tripoint_default := Some sm]> (submaps w)) w)).
Proof.
  intros Hobj Hdec.
  assert (coords = tripoint_default) as ->.
  { unfold decode_record in Hdec.
    destruct (read_version submap_json) as [v|what]; [|done]. csimpl in Hdec.
    rewrite load_members_no_coordinates in Hdec by done.
    destruct (replay_loads _ _) as [s|what]; cbn in Hdec; [|done].
    by injection Hdec. }
  split; [done|]. intros Hfree.
  unfold deserialize_submap, mbind, exn_state_bind, lift_outcome, gets, modify.
  rewrite Hdec. unfold add_submap.
  rewrite bool_decide_eq_false_2; [done|]. rewrite Hfree. by intros [].
Qed.

Lemma unserialize_submaps_chunk (p : tripoint) (sm : submap) (w w' : world submap) :
  unserialize_submaps env p w = (Ret (Some sm), w') →
  submaps w' !! p = Some (Some sm).
Proof.
  rewrite unserialize_submaps_eq. unfold unserialize_from, mbind, exn_state_bind.
  destruct (read_from_file_optional_json _ deserialize w) as [[[]|what] w1];
    cbn [negb]; try done.
  unfold modify, gets, mret, exn_state_ret.
  cbn [submaps set_submaps].
  match goal with
  | |- context [bool_decide (is_Some (?m !! p))] =>
      destruct (m !! p) as [entry|] eqn:Hp
  end.
  - rewrite bool_decide_eq_true_2 by eauto. cbn [negb submaps set_submaps].
    rewrite (submaps_index_present _ _ _ Hp). intros [= -> <-]. done.
  - rewrite bool_decide_eq_false_2 by (by intros []). done.
Qed.

(** X20.  A chunk [lookup_submap] returns is resident afterwards, and
    looking it up again returns the same chunk and changes nothing: the
    second lookup is answered from the buffer. *)
Theorem lookup_twice (p : tripoint) (sm : submap) (w w' : world submap) :
  lookup_submap env p w = (Ret (Some sm), w') →
  submaps w' !! p = Some (Some sm) ∧
  lookup_submap env p w' = (Ret (Some sm), w').
Proof.
  intros Hlookup.
  assert (submaps w' !! p = Some (Some sm)) as Hres.
  { unfold lookup_submap, mbind, exn_state_bind, gets in Hlookup.
    destruct (submaps w !! p) as [entry|] eqn:Hp.
    - unfold mret, exn_state_ret in Hlookup. by simplify_eq.
    - unfold try_catch in Hlookup.
      destruct (unserialize_submaps env p w) as [[result|what] w1] eqn:Hload.
      + simplify_eq. by apply (unserialize_submaps_chunk p sm w w').
      + unfold modify, mret, exn_state_ret in Hlookup. done. }
  split; [done|].
  unfold lookup_submap, mbind, exn_state_bind, gets. by rewrite Hres.
Qed.

End load_operations.

(** * Saved, evicted, looked up again *)

Section round_trip.
Context {submap : Type} `{!SubmapOps submap}.
Variable env : environment submap.




End round_trip.

(** * The flag [save] passes to [save_quad] *)

Section save_flags.
Context {submap : Type} `{!SubmapOps submap}.
Variable env : environment submap.

(** The tasks of [save], written as the calls of [save_quad] they make. *)
Lemma run_tasks_calls delete_after_save (quads : list tripoint)
    (acc : world submap * list tripoint) :
  foldl (run_task env) acc (task_of_quad env delete_after_save <$> quads)
  = foldl (λ acc om_addr,
             let r := save_quad env (find_dirname (world_base_save_path env) om_addr)
                                (quad_file env om_addr) om_addr []
                                (delete_after_save || negb (inbounds env om_addr))
                                acc.1 in
             (r.1, acc.2 ++ r.2)) acc quads.
Proof.
  revert acc. induction quads as [|om quads IH]; intros [w l]; [done|].
  cbn [fmap list_fmap foldl]. rewrite run_task_eq. cbv zeta. by rewrite IH.
Qed.

(** The quads [save] launches a task for: those of the keys, each once. *)
Lemma save_tasks_quads delete_after_save (m : gmap tripoint (option submap)) :
  ∃ quads,
    save_tasks env delete_after_save m = task_of_quad env delete_after_save <$> quads
    ∧ NoDup quads
    ∧ (∀ om_addr, om_addr ∈ quads ↔ ∃ k, is_Some (m !! k) ∧ project_to_omt k = om_addr).
Proof.
  destruct (save_tasks_eq env delete_after_save m) as (quads & Heq & Hsrc & Hcov).
  exists quads. split; [done|]. split.
  - assert (NoDup (task_om_addr <$> save_tasks env delete_after_save m)) as Hnd.
    { unfold save_tasks. apply launch_tasks_nodup; [constructor|].
      intros t Ht. inversion Ht. }
    rewrite Heq, <-list_fmap_compose in Hnd. eapply NoDup_fmap_1. exact Hnd.
  - intros om_addr. split; [apply Hsrc|].
    intros (k & Hk & <-). by apply Hcov.
Qed.

(** The quads do not depend on the caller's flag. *)
Lemma launch_tasks_flag (flag1 flag2 : bool) keys (saved : gset tripoint)
    (futures1 futures2 : list save_task) :
  task_om_addr <$> futures1 = task_om_addr <$> futures2 →
  task_om_addr <$> (foldl (launch_task env flag1) (saved, futures1) keys).2
  = task_om_addr <$> (foldl (launch_task env flag2) (saved, futures2) keys).2.
Proof.
  revert saved futures1 futures2.
  induction keys as [|k keys IH]; intros saved futures1 futures2 Hfut; [done|].
  cbn [foldl]. unfold launch_task at 2 4. case_bool_decide; [by apply IH|].
  apply IH. rewrite !fmap_app. by rewrite Hfut.
Qed.

Lemma save_tasks_flag (flag1 flag2 : bool) (m : gmap tripoint (option submap)) :
  ∃ quads,
    save_tasks env flag1 m = task_of_quad env flag1 <$> quads ∧
    save_tasks env flag2 m = task_of_quad env flag2 <$> quads ∧
    (∀ k, is_Some (m !! k) → project_to_omt k ∈ quads).
Proof.
  destruct (save_tasks_eq env flag1 m) as (quads1 & Heq1 & _ & Hcov).
  destruct (save_tasks_eq env flag2 m) as (quads2 & Heq2 & _ & _).
  assert (task_om_addr <$> save_tasks env flag1 m
          = task_om_addr <$> save_tasks env flag2 m) as Hsame
    by (unfold save_tasks; by apply launch_tasks_flag).
  rewrite Heq1, Heq2, <-!list_fmap_compose in Hsame.
  assert (∀ flag (l : list tripoint), (task_om_addr ∘ task_of_quad env flag) <$> l = l)
    as Hid by (intros flag l; induction l as [|a l IHl]; [done|]; cbn; by rewrite IHl).
  rewrite !Hid in Hsame. subst quads2. by exists quads1.
Qed.

(** What [save_quad] does to the buffer and the disk does not depend on
    its flag. *)
Lemma save_quad_flag_world dirname filename om_addr (l1 l2 : list tripoint)
    (flag1 flag2 : bool) (w : world submap) :
  (save_quad env dirname filename om_addr l1 flag1 w).1
  = (save_quad env dirname filename om_addr l2 flag2 w).1.
Proof.
  rewrite !save_quad_eq. cbv zeta.
  destruct (_ && negb _); [done|]. by destruct (write_io env filename).
Qed.

(** Two runs of the tasks under different flags of the caller: the same
    buffer and disk, and the same addresses queued outside the reality
    bubble. *)
Lemma run_tasks_flags (flag1 flag2 : bool) (quads : list tripoint)
    (w : world submap) (l1 l2 : list tripoint) :
  let outside (p : tripoint) := inbounds env (project_to_omt p) = false in
  filter outside l1 = filter outside l2 →
  (foldl (run_task env) (w, l1) (task_of_quad env flag1 <$> quads)).1
  = (foldl (run_task env) (w, l2) (task_of_quad env flag2 <$> quads)).1 ∧
  filter outside (foldl (run_task env) (w, l1) (task_of_quad env flag1 <$> quads)).2
  = filter outside (foldl (run_task env) (w, l2) (task_of_quad env flag2 <$> quads)).2.
Proof.
  intros outside. revert w l1 l2.
  induction quads as [|om quads IH]; intros w l1 l2 Hl; [done|].
  cbn [fmap list_fmap foldl]. rewrite !run_task_eq. cbv zeta.
  cbn [task_of_quad task_dirname task_quad_path task_om_addr
       task_delete_after_save task_inside_reality_bubble].
  set (dirname := find_dirname (world_base_save_path env) om).
  rewrite (save_quad_flag_world dirname (quad_file env om) om [] []
             (flag1 || negb (inbounds env om)) (flag2 || negb (inbounds env om)) w).
  apply IH. rewrite !filter_app, Hl. f_equal.
  destruct (inbounds env om) eqn:Hin.
  - destruct (save_quad_queue env dirname (quad_file env om) om []
                (flag1 || negb true) w) as (q1 & -> & Hq1).
    destruct (save_quad_queue env dirname (quad_file env om) om []
                (flag2 || negb true) w) as (q2 & -> & Hq2).
    cbn [app].
    assert (∀ q, (∀ p, p ∈ q → p ∈ submap_addrs om) → filter outside q = []) as Hnil.
    { intros q Hq. induction q as [|a q IHq]; [done|].
      rewrite filter_cons_False.
      - apply IHq. intros p Hp. by apply Hq, list_elem_of_further.
      - unfold outside.
        rewrite (project_to_omt_submap_addrs om a) by apply Hq, list_elem_of_here.
        by rewrite Hin. }
    by rewrite !Hnil.
  - by rewrite !orb_true_r.
Qed.

(** C5.  [save] makes one call of [save_quad] for each quad that has a key
    in the buffer, and the flag it passes is
    [delete_after_save || !inbounds( om_addr )]: the caller's flag or'ed with
    the quad lying outside the reality bubble.  For a submap of a quad
    outside the bubble the caller's flag makes no difference to what [save]
    leaves in the buffer; and when the write of such a quad commits, none of
    its chunks is resident after [save], whatever the caller passed. *)
Theorem inactive_quads_forced_out delete_after_save (w : world submap) :
  (∃ quads,
     NoDup quads ∧
     (∀ om_addr, om_addr ∈ quads ↔
                 ∃ k, is_Some (submaps w !! k) ∧ project_to_omt k = om_addr) ∧
     save env delete_after_save w =
       (let w0 := assure_dir_exist (world_base_save_path env +:+ "/maps") w in
        let r :=
          foldl (λ acc om_addr,
                   let r := save_quad env
                              (find_dirname (world_base_save_path env) om_addr)
                              (quad_file env om_addr) om_addr []
                              (delete_after_save || negb (inbounds env om_addr))
                              acc.1 in
                   (r.1, acc.2 ++ r.2)) (w0, []) quads in
        foldl (λ w elem, remove_submap elem w) r.1 r.2)) ∧
  (∀ p, inbounds env (project_to_omt p) = false →
     (∀ other_flag, submaps (save env delete_after_save w) !! p
                    = submaps (save env other_flag w) !! p) ∧
     (write_io env (submap_file env p) = Committed →
      resident (submaps (save env delete_after_save w)) p = None)).
Proof.
  set (w0 := assure_dir_exist (world_base_save_path env +:+ "/maps") w).
  split.
  - destruct (save_tasks_quads delete_after_save (submaps w0))
      as (quads & Heq & Hnd & Hquads).
    exists quads. split; [done|]. split; [done|].
    rewrite save_unfold. cbv zeta. fold w0. by rewrite Heq, run_tasks_calls.
  - intros p Hout. split.
    + intros other_flag. rewrite !save_unfold. cbv zeta. fold w0.
      destruct (save_tasks_flag delete_after_save other_flag (submaps w0))
        as (quads & -> & -> & _).
      destruct (run_tasks_flags delete_after_save other_flag quads w0 [] [])
        as [Hworld Hqueue]; [done|].
      rewrite !remove_all_submaps, Hworld.
      apply (f_equal (λ b : bool, if b then None else _)).
      apply bool_decide_ext.
      pose proof (list_elem_of_filter
                    (λ p, inbounds env (project_to_omt p) = false)) as Hfilter.
      split; intros Hin.
      * eapply Hfilter. rewrite <-Hqueue. by apply Hfilter.
      * eapply Hfilter. rewrite Hqueue. by apply Hfilter.
    + intros Hio. rewrite save_unfold. cbv zeta. fold w0.
      destruct (save_tasks_eq env delete_after_save (submaps w0))
        as (quads & -> & _ & Hcov).
      unfold resident. rewrite remove_all_submaps.
      destruct (resident (submaps w0) p) as [sm|] eqn:Hres.
      * rewrite bool_decide_eq_true_2; [done|].
        apply run_tasks_queue_flagged; [by rewrite Hres| | |].
        -- by rewrite Hout, orb_true_r.
        -- by rewrite Hio.
        -- apply Hcov. apply resident_Some in Hres. eauto.
      * case_bool_decide; [done|].
        pose proof (run_tasks_resident env (task_of_quad env delete_after_save <$> quads)
                      w0 [] p) as Hkeep.
        rewrite Hres in Hkeep. exact Hkeep.
Qed.

End save_flags.

(** * A write that raises *)

Section raising.
Context {submap : Type} `{!SubmapOps submap}.
Variable env : environment submap.
Variable raises : cata_path → bool.

(** [save_quad_raising] against [save_quad]: the same buffer, directories
    and eviction list; when the write is reached, fails and raises, the
    exception comes instead of [fs::remove]. *)
Lemma save_quad_raising_eq dirname filename om_addr submaps_to_delete delete_after_save
    (w : world submap) :
  save_quad_raising env raises dirname filename om_addr submaps_to_delete
                    delete_after_save w =
    let addrs := submap_addrs om_addr in
    let skipped :=
      quad_all_uniform (submaps w) addrs
      && negb (quad_has_reverted (submaps w) addrs && file_exist filename w) in
    let r := save_quad env dirname filename om_addr submaps_to_delete
                       delete_after_save w in
    if negb skipped && raises filename
       && negb (bool_decide (write_io env filename = Committed))
    then (Throw "write_to_file",
          (assure_dir_exist dirname (set_submaps (index_all addrs (submaps w)) w), r.2))
    else (Ret tt, r).
Proof.
  rewrite save_quad_eq. unfold save_quad_raising. rewrite inspect_quad_eq. cbv zeta.
  set (addrs := submap_addrs om_addr).
  assert (∀ p, resident (index_all addrs (submaps w)) p = resident (submaps w) p)
    as Hres by apply index_all_resident.
  cbn [submaps set_submaps]. rewrite queue_resident_eq.
  rewrite (resident_addrs_ext _ _ _ Hres).
  destruct (quad_all_uniform (submaps w) addrs && negb _); [done|].
  unfold write_to_file. rewrite quad_writer_eq. cbn [submaps set_submaps assure_dir_exist].
  rewrite (resident_addrs_ext _ _ _ Hres), (quad_records_ext _ _ _ _ Hres).
  destruct (write_io env filename), (raises filename); done.
Qed.

(** Where no failing write raises, the two are the same run. *)
Lemma save_quad_raising_returns dirname filename om_addr submaps_to_delete
    delete_after_save (w : world submap) :
  raises filename = false ∨ write_io env filename = Committed →
  save_quad_raising env raises dirname filename om_addr submaps_to_delete
                    delete_after_save w
  = (Ret tt, save_quad env dirname filename om_addr submaps_to_delete
                       delete_after_save w).
Proof.
  intros Hcase. rewrite save_quad_raising_eq. cbv zeta.
  destruct Hcase as [->| ->]; [by rewrite andb_false_r|].
  rewrite bool_decide_eq_true_2 by done. by rewrite andb_false_r.
Qed.

Lemma save_quad_raising_submaps dirname filename om_addr submaps_to_delete
    delete_after_save (w : world submap) :
  submaps (save_quad_raising env raises dirname filename om_addr submaps_to_delete
                             delete_after_save w).2.1
  = index_all (submap_addrs om_addr) (submaps w).
Proof.
  rewrite save_quad_raising_eq. cbv zeta.
  destruct (_ && _ && _); [done|]. cbn [snd]. apply save_quad_submaps.
Qed.

Lemma save_quad_raising_debug_log dirname filename om_addr submaps_to_delete
    delete_after_save (w : world submap) :
  debug_log (save_quad_raising env raises dirname filename om_addr submaps_to_delete
                               delete_after_save w).2.1
  = debug_log w.
Proof.
  rewrite save_quad_raising_eq. cbv zeta.
  destruct (_ && _ && _); [done|]. cbn [snd]. apply save_quad_debug_log.
Qed.

Lemma save_quad_raising_files_other dirname filename om_addr submaps_to_delete
    delete_after_save (w : world submap) (path : cata_path) :
  path ≠ filename →
  files (save_quad_raising env raises dirname filename om_addr submaps_to_delete
                           delete_after_save w).2.1 !! path
  = files w !! path.
Proof.
  intros Hne. rewrite save_quad_raising_eq. cbv zeta.
  destruct (_ && _ && _); [done|]. cbn [snd]. by apply save_quad_files_other.
Qed.

(** When the write is reached, fails and raises, [save_quad] is left by
    the exception. *)
Lemma save_quad_raising_throws dirname om_addr submaps_to_delete delete_after_save
    (w : world submap) :
  quad_is_written env om_addr w = true →
  raises (quad_file env om_addr) = true →
  write_io env (quad_file env om_addr) ≠ Committed →
  (save_quad_raising env raises dirname (quad_file env om_addr) om_addr
                     submaps_to_delete delete_after_save w).1
  = Throw "write_to_file".
Proof.
  intros Hwritten Hraises Hio. rewrite save_quad_raising_eq. cbv zeta.
  unfold quad_is_written in Hwritten. rewrite Hwritten, Hraises.
  by rewrite bool_decide_eq_false_2.
Qed.

Lemma run_task_raising_eq (w : world submap) submaps_to_delete futures (t : save_task) :
  run_task_raising env raises (w, submaps_to_delete, futures) t =
    let r := save_quad_raising env raises (task_dirname t) (task_quad_path t)
               (task_om_addr t) []
               (task_delete_after_save t || negb (task_inside_reality_bubble t)) w in
    (r.2.1,
     match r.1 with
     | Ret _ => submaps_to_delete ++ r.2.2
     | Throw _ => submaps_to_delete
     end,
     futures ++ [match r.1 with Ret _ => Ret tt | Throw what => Throw what end]).
Proof.
  unfold run_task_raising. by destruct (save_quad_raising _ _ _ _ _ _ _ _) as [[[]|] []].
Qed.

(** *** The futures *)

Lemma get_futures_throw (futures : list (outcome unit)) (what : string) :
  Throw what ∈ futures → ∃ what', get_futures futures = Throw what'.
Proof.
  induction futures as [|[[]|what'] futures IH]; intros Hin.
  - inversion Hin.
  - apply elem_of_cons in Hin as [?|Hin]; [done|]. by apply IH.
  - by exists what'.
Qed.

Lemma get_futures_returns (futures : list (outcome unit)) :
  (∀ f, f ∈ futures → f = Ret tt) → get_futures futures = Ret tt.
Proof.
  induction futures as [|f futures IH]; intros Hall; [done|].
  rewrite (Hall f) by apply list_elem_of_here. cbn. apply IH.
  intros f' Hf'. by apply Hall, list_elem_of_further.
Qed.

Lemma run_tasks_raising_keep (tasks : list save_task) (w : world submap)
    (l : list tripoint) (futures : list (outcome unit)) (f : outcome unit) :
  f ∈ futures → f ∈ (foldl (run_task_raising env raises) (w, l, futures) tasks).2.
Proof.
  revert w l futures. induction tasks as [|t tasks IH]; intros w l futures Hin; [done|].
  cbn [foldl]. rewrite run_task_raising_eq. cbv zeta. apply IH.
  apply elem_of_app. by left.
Qed.

(** *** The tasks *)

(** No task creates, alters or removes a chunk, raised or not. *)
Lemma run_tasks_raising_resident (tasks : list save_task) (w : world submap)
    (l : list tripoint) (futures : list (outcome unit)) (p : tripoint) :
  resident (submaps (foldl (run_task_raising env raises) (w, l, futures) tasks).1.1) p
  = resident (submaps w) p.
Proof.
  revert w l futures. induction tasks as [|t tasks IH]; intros w l futures; [done|].
  cbn [foldl]. rewrite run_task_raising_eq. cbv zeta. rewrite IH.
  cbn [fst]. by rewrite save_quad_raising_submaps, index_all_resident.
Qed.

(** Where no failing write raises, the tasks end as those of [save], and
    every future holds a result. *)
Lemma run_tasks_raising_returns (tasks : list save_task) (w : world submap)
    (l : list tripoint) (futures : list (outcome unit)) :
  (∀ path, raises path = false ∨ write_io env path = Committed) →
  (∀ f, f ∈ futures → f = Ret tt) →
  let r := foldl (run_task_raising env raises) (w, l, futures) tasks in
  (r.1.1, r.1.2) = foldl (run_task env) (w, l) tasks ∧
  (∀ f, f ∈ r.2 → f = Ret tt).
Proof.
  intros Hnone. revert w l futures.
  induction tasks as [|t tasks IH]; intros w l futures Hfut; cbv zeta.
  - done.
  - cbn [foldl]. rewrite run_task_raising_eq, run_task_eq. cbv zeta.
    rewrite save_quad_raising_returns by apply Hnone. cbn [fst snd].
    apply IH. intros f [?|Hf%list_elem_of_singleton]%elem_of_app; [auto|done].
Qed.

Lemma save_raising_unfold delete_after_save (w : world submap) :
  save_raising env raises delete_after_save w =
    let w0 := assure_dir_exist (world_base_save_path env +:+ "/maps") w in
    let r := foldl (run_task_raising env raises) (w0, [], [])
                   (save_tasks env delete_after_save (submaps w0)) in
    match get_futures r.2 with
    | Ret _ => (Ret tt, foldl (λ w elem, remove_submap elem w) r.1.1 r.1.2)
    | Throw what => (Throw what, r.1.1)
    end.
Proof. unfold save_raising. cbv zeta. by destruct (foldl _ _ _) as [[] ?]. Qed.

(** Where no failing write raises, [save_raising] returns and is [save]. *)
Lemma save_raising_returns delete_after_save (w : world submap) :
  (∀ path, raises path = false ∨ write_io env path = Committed) →
  save_raising env raises delete_after_save w = (Ret tt, save env delete_after_save w).
Proof.
  intros Hnone. rewrite save_raising_unfold, save_unfold. cbv zeta.
  set (w0 := assure_dir_exist (world_base_save_path env +:+ "/maps") w).
  destruct (run_tasks_raising_returns (save_tasks env delete_after_save (submaps w0))
              w0 [] [] Hnone) as [Heq Hfut].
  { intros f Hf. inversion Hf. }
  rewrite (get_futures_returns _ Hfut). by rewrite <-Heq.
Qed.

End raising.

(** * One write that fails *)

Section failing_write.
Context {submap : Type} `{!SubmapOps submap}.
Variable env : environment submap.
Variable raises : cata_path → bool.
Variable failing : tripoint.
Hypothesis raises_only_failing : ∀ path, raises path = true → path = quad_file env failing.

Lemma quad_all_uniform_false (m : gmap tripoint (option submap)) (addrs : list tripoint) :
  quad_all_uniform m addrs = false →
  ∃ addr sm, addr ∈ addrs ∧ resident m addr = Some sm ∧ is_uniform sm = false.
Proof.
  unfold quad_all_uniform. induction addrs as [|a addrs IH]; [done|].
  cbn [forallb]. intros [Ha|Hrest]%andb_false_iff.
  - destruct (resident m a) as [sm|] eqn:Hres; [|done].
    exists a, sm. split; [apply list_elem_of_here|done].
  - destruct (IH Hrest) as (addr & sm & Hin & Hres & Hnu).
    exists addr, sm. split; [by apply list_elem_of_further|done].
Qed.

(** A quad that is written has a key in the buffer. *)
Lemma quad_is_written_key (om_addr : tripoint) (w : world submap) :
  quad_is_written env om_addr w = true →
  ∃ k, is_Some (submaps w !! k) ∧ project_to_omt k = om_addr.
Proof.
  unfold quad_is_written. intros Hw. apply negb_true_iff, andb_false_iff in Hw.
  destruct Hw as [Hnu|Hrev].
  - destruct (quad_all_uniform_false _ _ Hnu) as (addr & sm & Hin & Hres & _).
    exists addr. split; [|by apply project_to_omt_submap_addrs].
    apply resident_Some in Hres. eauto.
  - apply negb_false_iff, andb_true_iff in Hrev as [Hrev _].
    apply quad_has_reverted_true in Hrev as (addr & sm & Hin & Hres & _).
    exists addr. split; [|by apply project_to_omt_submap_addrs].
    apply resident_Some in Hres. eauto.
Qed.

(** The tasks with the write of the failing quad raising, against the
    tasks of [save]: the same buffer, and the same files away from the
    failing quad's. *)
Lemma run_tasks_raising_off_file delete_after_save (oms : list tripoint)
    (w1 w2 : world submap) (l1 l2 : list tripoint) (futures : list (outcome unit)) :
  submaps w1 = submaps w2 →
  (∀ path, path ≠ quad_file env failing → files w1 !! path = files w2 !! path) →
  ∀ path, path ≠ quad_file env failing →
    files (foldl (run_task_raising env raises) (w1, l1, futures)
                 (task_of_quad env delete_after_save <$> oms)).1.1 !! path
    = files (foldl (run_task env) (w2, l2)
                   (task_of_quad env delete_after_save <$> oms)).1 !! path.
Proof.
  revert w1 w2 l1 l2 futures.
  induction oms as [|om oms IH]; intros w1 w2 l1 l2 futures Hsub Hfiles; [done|].
  cbn [fmap list_fmap foldl]. rewrite run_task_raising_eq, run_task_eq. cbv zeta.
  cbn [task_of_quad task_dirname task_quad_path task_om_addr
       task_delete_after_save task_inside_reality_bubble].
  apply IH.
  - cbn [fst]. by rewrite save_quad_raising_submaps, save_quad_submaps, Hsub.
  - cbn [fst]. intros path Hpath.
    destruct (decide (quad_file env om = quad_file env failing)) as [Hq|Hq].
    + rewrite save_quad_raising_files_other, save_quad_files_other by congruence. auto.
    + rewrite save_quad_raising_returns.
      * cbn [snd]. by apply (save_quad_agree env (quad_file env failing)).
      * left. destruct (raises (quad_file env om)) eqn:Hr; [|done].
        by apply raises_only_failing in Hr.
Qed.

(** The future of the failing quad's task holds the exception. *)
Lemma run_tasks_raising_throws delete_after_save (oms : list tripoint)
    (w : world submap) (l : list tripoint) (futures : list (outcome unit)) :
  failing ∈ oms →
  quad_is_written env failing w = true →
  raises (quad_file env failing) = true →
  write_io env (quad_file env failing) ≠ Committed →
  Throw "write_to_file"
    ∈ (foldl (run_task_raising env raises) (w, l, futures)
             (task_of_quad env delete_after_save <$> oms)).2.
Proof.
  intros Hin Hwritten Hraises Hio. revert w l futures Hin Hwritten.
  induction oms as [|om oms IH]; intros w l futures Hin Hwritten; [inversion Hin|].
  cbn [fmap list_fmap foldl]. rewrite run_task_raising_eq. cbv zeta.
  cbn [task_of_quad task_dirname task_quad_path task_om_addr
       task_delete_after_save task_inside_reality_bubble].
  destruct (decide (om = failing)) as [->|Hne].
  - apply run_tasks_raising_keep.
    rewrite save_quad_raising_throws by done.
    apply elem_of_app. right. apply list_elem_of_here.
  - apply IH.
    + apply elem_of_cons in Hin as [?|?]; [by destruct Hne|done].
    + cbn [fst]. unfold quad_is_written, file_exist in *.
      rewrite save_quad_raising_submaps, save_quad_raising_files_other.
      * by rewrite (proj1 (quad_flags_preserved _ _ _)),
                   (proj2 (quad_flags_preserved _ _ _)).
      * intros Heq. apply quad_file_inj in Heq. by destruct Hne.
Qed.

Lemma save_raising_files delete_after_save (w : world submap) :
  let w0 := assure_dir_exist (world_base_save_path env +:+ "/maps") w in
  files (save_raising env raises delete_after_save w).2
  = files (foldl (run_task_raising env raises) (w0, [], [])
                 (save_tasks env delete_after_save (submaps w0))).1.1.
Proof.
  cbv zeta. rewrite save_raising_unfold. cbv zeta.
  destruct (get_futures _); [|done]. cbn [snd]. apply remove_all_files.
Qed.

(** C4, as the code has it.  The write of the file of the quad [failing]
    fails, and [write_to_file] reports that through its result or, when
    [raises] says so, by an exception.  Neither [save_quad] nor [save]
    handles the failure.

    Either way [save_quad] adds nothing to the debug log, and the file of
    every other quad is after the save what the same save leaves with that
    write committing.

    Reported through the result, the failure is dropped: [save] returns,
    the entry of every submap of another quad is the same as with the write
    committing, and the chunks of the failing quad are not kept: when the
    writer had run and the quad's flag is set, none of them is resident
    afterwards.

    Reported by an exception, the failure leaves [save] at [fut.get()]:
    the call does not return, and no chunk, of the failing quad or of any
    other, is evicted. *)
Theorem save_failure_isolated delete_after_save (w : world submap) :
  let q := quad_file env failing in
  write_io env q ≠ Committed →
  (∀ dirname submaps_to_delete flag (w0 : world submap),
     debug_log (save_quad_raising env raises dirname q failing submaps_to_delete
                                  flag w0).2.1 = debug_log w0) ∧
  (∀ om_addr, om_addr ≠ failing →
     files (save_raising env raises delete_after_save w).2 !! quad_file env om_addr
     = files (save (with_commit_at q env) delete_after_save w) !! quad_file env om_addr) ∧
  (raises q = false →
     save_raising env raises delete_after_save w
     = (Ret tt, save env delete_after_save w) ∧
     (∀ p, project_to_omt p ≠ failing →
        submaps (save env delete_after_save w) !! p
        = submaps (save (with_commit_at q env) delete_after_save w) !! p) ∧
     (write_io env q = FailedAfterWriter →
      delete_after_save || negb (inbounds env failing) = true →
      ∀ p, project_to_omt p = failing →
        resident (submaps (save env delete_after_save w)) p = None)) ∧
  (raises q = true → quad_is_written env failing w = true →
     (∃ what, (save_raising env raises delete_after_save w).1 = Throw what) ∧
     (∀ p, resident (submaps (save_raising env raises delete_after_save w).2) p
           = resident (submaps w) p)).
Proof.
  intros q Hio.
  destruct (save_isolated_off_file env q delete_after_save w) as [Hfiles Hsub].
  set (w0 := assure_dir_exist (world_base_save_path env +:+ "/maps") w).
  split; [|split; [|split]].
  - intros. apply save_quad_raising_debug_log.
  - intros om_addr Hne.
    assert (quad_file env om_addr ≠ q) as Hpath
      by (intros Heq; by apply quad_file_inj in Heq).
    rewrite <-Hfiles by done. rewrite save_raising_files, save_unfold. cbv zeta.
    rewrite remove_all_files. fold w0.
    destruct (save_tasks_eq env delete_after_save (submaps w0)) as (oms & -> & _ & _).
    by apply run_tasks_raising_off_file.
  - intros Hret.
    assert (∀ path, raises path = false ∨ write_io env path = Committed) as Hnone.
    { intros path. left. destruct (raises path) eqn:Hr; [|done].
      pose proof (raises_only_failing _ Hr) as Hpath. rewrite Hpath in Hr.
      unfold q in Hret. congruence. }
    split; [by apply save_raising_returns|]. split.
    + intros p Hne. apply Hsub. intros Heq. by apply quad_file_inj in Heq.
    + intros Hafter Hflag p Hp. subst failing.
      rewrite save_unfold. cbv zeta. fold w0.
      destruct (save_tasks_eq env delete_after_save (submaps w0))
        as (oms & -> & _ & Hcov).
      unfold resident. rewrite remove_all_submaps.
      destruct (resident (submaps w0) p) as [sm|] eqn:Hres.
      * rewrite bool_decide_eq_true_2; [done|].
        apply run_tasks_queue_flagged; [by rewrite Hres|done| |].
        -- unfold submap_file. fold q. by rewrite Hafter.
        -- apply Hcov. apply resident_Some in Hres. eauto.
      * case_bool_decide; [done|].
        pose proof (run_tasks_resident env (task_of_quad env delete_after_save <$> oms)
                      w0 [] p) as Hkeep.
        rewrite Hres in Hkeep. exact Hkeep.
  - intros Hraises Hwritten. split.
    + rewrite save_raising_unfold. cbv zeta. fold w0.
      destruct (save_tasks_eq env delete_after_save (submaps w0))
        as (oms & -> & _ & Hcov).
      destruct (quad_is_written_key failing w Hwritten) as (k & Hk & Hquad).
      destruct (get_futures_throw
                  (foldl (run_task_raising env raises) (w0, [], [])
                         (task_of_quad env delete_after_save <$> oms)).2
                  "write_to_file") as [what Hthrow].
      { apply run_tasks_raising_throws; try done.
        rewrite <-Hquad. by apply Hcov. }
      rewrite Hthrow. by exists what.
    + intros p. rewrite save_raising_unfold. cbv zeta. fold w0.
      destruct (save_tasks_eq env delete_after_save (submaps w0))
        as (oms & -> & _ & Hcov).
      destruct (quad_is_written_key failing w Hwritten) as (k & Hk & Hquad).
      destruct (get_futures_throw
                  (foldl (run_task_raising env raises) (w0, [], [])
                         (task_of_quad env delete_after_save <$> oms)).2
                  "write_to_file") as [what Hthrow].
      { apply run_tasks_raising_throws; try done.
        rewrite <-Hquad. by apply Hcov. }
      rewrite Hthrow. cbn [snd]. by rewrite run_tasks_raising_resident.
Qed.

End failing_write.

(** * The further properties at concrete inputs *)


Lemma lookup_after_add_witness :
  let w' := set_submaps (<[Recording.east := Some Recording.dirt]>
                           (submaps Recording.partial_world)) Recording.partial_world in
  lookup_submap Recording.calm_env Recording.east w' = (Ret (Some Recording.dirt), w').
Proof.
  refine (proj1 (proj2 (lookup_after_add Recording.calm_env Recording.east Recording.dirt
                          Recording.partial_world _))).
  vm_compute. reflexivity.
Defined.

Lemma remove_after_add_witness :
  remove_submap Recording.east
    (set_submaps (add_submap Recording.east (Some Recording.dirt)
                             (submaps Recording.partial_world)).2
                 Recording.partial_world)
  = Recording.partial_world.
Proof. apply remove_after_add. vm_compute. reflexivity. Defined.

Lemma submap_exists_vs_lookup_witness :
  (submap_exists Recording.calm_env Recording.origin Recording.null_world
   = (Ret true, Recording.null_world) ∧
   lookup_submap Recording.calm_env Recording.origin Recording.null_world
   = (Ret None, Recording.null_world)) ∧
  ∃ result w',
    lookup_submap Recording.calm_env Recording.origin Recording.saved_world
    = (Ret result, w') ∧
    submap_exists Recording.calm_env Recording.origin Recording.saved_world
    = (Ret (bool_decide (is_Some result)), w').
Proof.
  split.
  - refine (proj1 (submap_exists_vs_lookup Recording.calm_env Recording.origin
                     Recording.null_world) _).
    vm_compute. reflexivity.
  - refine (proj2 (submap_exists_vs_lookup Recording.calm_env Recording.origin
                     Recording.saved_world) _).
    vm_compute. discriminate.
Defined.

Lemma lookup_without_file_witness :
  lookup_submap Recording.calm_env Recording.east Recording.partial_world
  = (Ret None, Recording.partial_world) ∧
  submap_exists Recording.calm_env Recording.east Recording.partial_world
  = (Ret false, Recording.partial_world).
Proof. apply lookup_without_file; vm_compute; reflexivity. Defined.

Lemma save_leaves_other_files_witness :
  files (save Recording.calm_env true Recording.loaded_world) !! Recording.east_file
  = files Recording.loaded_world !! Recording.east_file.
Proof.
  apply save_leaves_other_files. intros k [e He] Hpath.
  unfold Recording.loaded_world in He. cbn [submaps] in He.
  apply lookup_singleton_Some in He as [<- _]. vm_compute in Hpath. discriminate.
Defined.

Lemma save_only_evicts_witness :
  resident (submaps Recording.dirt_world) Recording.origin = Some Recording.dirt ∧
  resident (submaps (save Recording.calm_env false Recording.dirt_world)) Recording.origin
  = resident (submaps Recording.dirt_world) Recording.origin.
Proof.
  split.
  - refine (proj1 (save_only_evicts Recording.calm_env false Recording.dirt_world
                     Recording.origin) Recording.dirt _).
    vm_compute. reflexivity.
  - refine (proj2 (save_only_evicts Recording.calm_env false Recording.dirt_world
                     Recording.origin) _ _); reflexivity.
Defined.

Lemma save_evicts_flagged_witness :
  resident (submaps (save Recording.bubble_env false Recording.dirt_world))
           (mk_tripoint 2 0 0) = None.
Proof. apply save_evicts_flagged; [reflexivity|vm_compute; reflexivity]. Defined.

Lemma save_skips_uniform_quad_witness :
  files (save Recording.calm_env true Recording.partial_world)
    !! quad_file Recording.calm_env Recording.origin = None.
Proof. apply save_skips_uniform_quad; vm_compute; reflexivity. Defined.

Lemma save_writes_resident_chunks_witness :
  files (save Recording.calm_env false Recording.dirt_world)
    !! submap_file Recording.calm_env Recording.origin
  = Some (FileJson (JArray [submap_record Recording.calm_env Recording.origin
                                          Recording.dirt])).
Proof.
  refine (eq_trans (save_writes_resident_chunks Recording.calm_env Recording.origin
                      Recording.dirt false Recording.dirt_world _ _ _) _);
    vm_compute; reflexivity.
Defined.

Lemma save_tombstone_reports_removal_witness :
  MsgRemoveNonExisting Recording.origin
    ∈ debug_log (save Recording.calm_env true Recording.tombstone_world) ∧
  submaps (save Recording.calm_env true Recording.tombstone_world) !! Recording.origin
  = None.
Proof.
  apply save_tombstone_reports_removal;
    try (vm_compute; reflexivity); try (vm_compute; eauto; discriminate).
Defined.

Lemma legacy_name_without_grouping_witness :
  path_join Recording.origin_dir (legacy_quad_name Recording.calm_env Recording.origin)
  = find_quad_path Recording.origin_dir Recording.origin ∧
  resolve_quad_path Recording.calm_env Recording.origin_dir Recording.origin
                    Recording.saved_world
  = find_quad_path Recording.origin_dir Recording.origin.
Proof. apply legacy_name_without_grouping. intros n. reflexivity. Defined.

Lemma record_round_trip_witness :
  decode_record Recording.record_version_last
  = Ret (Recording.dirt_version_last, Recording.origin).
Proof.
  refine (eq_trans (record_round_trip Recording.calm_env Recording.origin
                      Recording.dirt
                      [("version", JInt 33);
                       ("coordinates", JArray [JInt 0; JInt 0; JInt 0]);
                       ("terrain", JString "t_dirt")]
                      Recording.record_version_last _ _ _ _) _).
  - vm_compute. reflexivity.
  - symmetry.
    apply (Permutation_rev [("version", JInt 33);
                            ("coordinates", JArray [JInt 0; JInt 0; JInt 0]);
                            ("terrain", JString "t_dirt")]).
  - apply (bool_decide_unpack _). vm_compute. exact I.
  - apply (bool_decide_unpack _). vm_compute. exact I.
  - vm_compute. reflexivity.
Defined.

Lemma deserialize_keeps_resident_witness :
  submaps (deserialize (JArray Recording.broken_array_front) Recording.dirt_world).2
    !! Recording.origin = Some (Some Recording.dirt) ∧
  deserialize_submap Recording.record_version_last Recording.dirt_world
  = (Ret tt, debugmsg (MsgAlreadyLoaded Recording.origin) Recording.dirt_world).
Proof.
  split.
  - apply (proj1 (deserialize_keeps_resident Recording.dirt_world)).
    vm_compute. reflexivity.
  - refine (proj2 (deserialize_keeps_resident Recording.dirt_world) _
                  Recording.dirt_version_last _ _ _).
    + vm_compute. reflexivity.
    + vm_compute. eauto.
Defined.

Lemma deserialize_stops_at_bad_element_witness :
  ∃ what,
    deserialize (JArray (Recording.broken_array_front
                           ++ JInt 7 :: Recording.broken_array_back))
                Recording.saved_world
    = (Throw what,
       (deserialize_records Recording.broken_array_front Recording.saved_world).2).
Proof.
  apply deserialize_stops_at_bad_element.
  - vm_compute. reflexivity.
  - intros members. discriminate.
Defined.

Lemma record_without_coordinates_witness :
  deserialize_submap Recording.record_no_coordinates Recording.saved_world
  = (Ret tt, set_submaps (<[tripoint_default := Some Recording.loaded_dirt]>
                            (submaps Recording.saved_world)) Recording.saved_world).
Proof.
  refine (proj2 (record_without_coordinates Recording.record_no_coordinates
                   Recording.loaded_dirt tripoint_default Recording.saved_world _ _) _).
  - apply (bool_decide_unpack _). vm_compute. exact I.
  - vm_compute. reflexivity.
  - vm_compute. reflexivity.
Defined.

Lemma lookup_twice_witness :
  let w' := (lookup_submap Recording.calm_env Recording.origin Recording.saved_world).2 in
  submaps w' !! Recording.origin = Some (Some Recording.dirt_version_last) ∧
  lookup_submap Recording.calm_env Recording.origin w'
  = (Ret (Some Recording.dirt_version_last), w').
Proof.
  apply (lookup_twice Recording.calm_env Recording.origin _ Recording.saved_world).
  vm_compute. reflexivity.
Defined.


(** * The flag and the failing write at concrete inputs *)

Lemma inactive_quads_forced_out_witness :
  inbounds Recording.bubble_env (project_to_omt (mk_tripoint 2 0 0)) = false ∧
  resident (submaps Recording.dirt_world) (mk_tripoint 2 0 0) = Some Recording.dirt ∧
  resident (submaps (save Recording.bubble_env false Recording.dirt_world))
           (mk_tripoint 2 0 0) = None.
Proof.
  split; [vm_compute; reflexivity|]. split; [vm_compute; reflexivity|].
  refine (proj2 (proj2 (inactive_quads_forced_out Recording.bubble_env false
                          Recording.dirt_world) (mk_tripoint 2 0 0) _) _);
    vm_compute; reflexivity.
Defined.

(** C4 as stated fails.  The quad at the origin is a tombstone quad saved
    with [delete_after_save]; its chunks are queued before the write, and
    the write fails, before or after the writer ran.  When the failure is
    returned, [save] returns and the chunk at the origin is evicted; when it
    is raised, [save] does not return.  In no case does [save] return with
    the chunk still resident. *)
Lemma save_failure_evicts_or_aborts :
  let attempt (writer_ran raised : bool) :=
    save_raising (Recording.failing_origin_env writer_ran)
                 (Recording.raises_at_origin raised) true Recording.tombstone_world in
  resident (submaps Recording.tombstone_world) Recording.origin
  = Some Recording.air_reverted ∧
  write_io (Recording.failing_origin_env false) Recording.origin_file
  = FailedBeforeWriter ∧
  write_io (Recording.failing_origin_env true) Recording.origin_file
  = FailedAfterWriter ∧
  ((attempt false false).1 = Ret tt ∧
   resident (submaps (attempt false false).2) Recording.origin = None) ∧
  ((attempt true false).1 = Ret tt ∧
   resident (submaps (attempt true false).2) Recording.origin = None) ∧
  (attempt false true).1 = Throw "write_to_file" ∧
  (attempt true true).1 = Throw "write_to_file".
Proof. cbv zeta. repeat split; vm_compute; reflexivity. Qed.

Lemma save_failure_isolated_witness :
  write_io Recording.failing_env (quad_file Recording.failing_env Recording.origin)
  = FailedAfterWriter ∧
  (save_raising Recording.failing_env (Recording.raises_at_origin false) true
                Recording.dirt_world
   = (Ret tt, save Recording.failing_env true Recording.dirt_world) ∧
   resident (submaps (save Recording.failing_env true Recording.dirt_world))
            Recording.origin = None) ∧
  ((∃ what, (save_raising Recording.failing_env (Recording.raises_at_origin true) true
                          Recording.dirt_world).1 = Throw what) ∧
   resident (submaps (save_raising Recording.failing_env
                                   (Recording.raises_at_origin true) true
                                   Recording.dirt_world).2) Recording.origin
   = Some Recording.dirt).
Proof.
  assert (∀ raised path, Recording.raises_at_origin raised path = true →
                         path = quad_file Recording.failing_env Recording.origin)
    as Honly.
  { intros raised path Hr. unfold Recording.raises_at_origin in Hr.
    apply andb_true_iff in Hr as [_ Hr]. by apply bool_decide_eq_true_1 in Hr. }
  assert (write_io Recording.failing_env
                   (quad_file Recording.failing_env Recording.origin) ≠ Committed)
    as Hio by (vm_compute; discriminate).
  assert (quad_is_written Recording.failing_env Recording.origin Recording.dirt_world
          = true) as Hwritten by (vm_compute; reflexivity).
  split; [vm_compute; reflexivity|]. split.
  - destruct (proj1 (proj2 (proj2
                (save_failure_isolated Recording.failing_env
                   (Recording.raises_at_origin false) Recording.origin
                   (Honly false) true Recording.dirt_world Hio)))
                eq_refl) as (Hret & _ & Hevict).
    split; [exact Hret|].
    apply Hevict; vm_compute; reflexivity.
  - destruct (proj2 (proj2 (proj2
                (save_failure_isolated Recording.failing_env
                   (Recording.raises_at_origin true) Recording.origin
                   (Honly true) true Recording.dirt_world Hio)))
                eq_refl Hwritten) as [Hthrow Hkeep].
    split; [exact Hthrow|]. rewrite Hkeep. vm_compute. reflexivity.
Defined.
